(** * Labeling-function generators of LabelingFunctionGeneratorUtils.py

    A shallow embedding of the six builders of
    [src/LabelingFunctionGeneratorUtils.py] and of the closures they
    return, followed by the properties of the specification that were
    checked against them.

    Conventions of the embedding.
    - A Python call either returns a value or raises: [outcome].
    - [kwargs] is the keyword dictionary a builder receives.  Its values are
      typed as the docstrings of the builders type them (names and tags are
      strings, labels and the fuzzy threshold are integers, the sentiment
      thresholds are floats, keyword lists are lists of strings); a key may
      be absent, and reading an absent key raises [KeyError].
    - Python [int] is [Z]; Python [float] is an IEEE-754 value, taken here
      as [spec_float] with the comparisons of the standard library's
      [SpecFloat].
    - Python [str] is [string]; a character is read as a code point in
      U+0000..U+00FF.
    - The collaborators of the closures (TextBlob's sentiment, thefuzz's
      [token_sort_ratio], the iteration order of a Python [set], and
      [re.search]) are parameters of the closures that use them; a model of
      [re.search] on a fragment of the pattern language is given in
      [PyRe]. *)

From Stdlib Require Import ZArith List Bool Ascii String Lia.
From Stdlib Require Import Floats.SpecFloat.
Import ListNotations.

Local Open Scope Z_scope.
Local Open Scope string_scope.

Set Implicit Arguments.

(* ------------------------------------------------------------------ *)
(** ** Results of Python calls *)

(** The keys the builders read from [kwargs]. *)
Inductive key : Type :=
| kLabelingFunctionName
| kNERTag
| kReturnLabel
| kSubjectivityLower
| kSubjectivityUpper
| kPolarityLower
| kPolarityUpper
| kListOfKeywords
| kFuzzyMatchThreshold.

(** The key as it is spelled in the source. *)
Definition key_name (k : key) : string :=
  match k with
  | kLabelingFunctionName => "LabelingFunctionName"
  | kNERTag => "NERTag"
  | kReturnLabel => "ReturnLabel"
  | kSubjectivityLower => "SubjectivityLower"
  | kSubjectivityUpper => "SubjectivityUpper"
  | kPolarityLower => "PolarityLower"
  | kPolarityUpper => "PolarityUpper"
  | kListOfKeywords => "ListOfKeywords"
  | kFuzzyMatchThreshold => "FuzzyMatchThreshold"
  end.

(** Why [re.search] did not answer: the pattern is rejected by the
    compiler of [re] ([re.error]), or it lies outside the fragment of the
    pattern language that [PyRe] models. *)
Inductive re_failure : Type :=
| re_error
| re_outside_fragment.

Inductive exn : Type :=
| KeyError (k : key)
| ReFailure (e : re_failure).

Inductive outcome (A : Type) : Type :=
| Returns (a : A)
| Raises (e : exn).

Arguments Returns {A} a.
Arguments Raises {A} e.

Definition bind {A B : Type} (m : outcome A) (f : A -> outcome B) : outcome B :=
  match m with
  | Returns a => f a
  | Raises e => Raises e
  end.

Notation "x <- m ;; k" := (bind m (fun x => k))
  (at level 61, m at next level, right associativity).

(* ------------------------------------------------------------------ *)
(** ** Documents and configurations *)

Definition float : Type := spec_float.

(** A spaCy entity span: [each_ent.text] and [each_ent.label_]. *)
Record Span : Type := mkSpan {
  span_text : string;
  label_ : string
}.

(** A spaCy document: [InputSpacyDoc.text] and [InputSpacyDoc.ents]. *)
Record Doc : Type := mkDoc {
  text : string;
  ents : list Span
}.

Definition value (k : key) : Type :=
  match k with
  | kLabelingFunctionName | kNERTag => string
  | kReturnLabel | kFuzzyMatchThreshold => Z
  | kSubjectivityLower | kSubjectivityUpper
  | kPolarityLower | kPolarityUpper => float
  | kListOfKeywords => list string
  end.

Definition kwargs : Type := forall k : key, option (value k).

(** [kwargs[k]]. *)
Definition getitem (kw : kwargs) (k : key) : outcome (value k) :=
  match kw k with
  | Some v => Returns v
  | None => Raises (KeyError k)
  end.

(** A labeling function object of snorkel: the registered [name], the
    attribute [__name__] when one has been assigned, and the wrapped
    function. *)
Record LabelingFunction : Type := mkLF {
  name : string;
  dunder_name : option string;
  call : Doc -> outcome Z
}.

(** [@labeling_function(name = ...)]: the object is registered under the
    given name and has no [__name__] of its own. *)
Definition labeling_function (name : string) (f : Doc -> outcome Z)
  : LabelingFunction :=
  mkLF name None f.

(** [lf.__name__ = new_name]. *)
Definition set_dunder_name (new_name : string) (lf : LabelingFunction)
  : LabelingFunction :=
  mkLF (name lf) (Some new_name) (call lf).

Definition ABSTAIN : Z := -1.

(* ------------------------------------------------------------------ *)
(** ** Entity-tag presence and absence *)

Fixpoint CheckNERTagPresence (NERTag : string) (ReturnLabel : Z)
    (ents : list Span) : outcome Z :=
  match ents with
  | [] => Returns ABSTAIN
  | each_ent :: rest =>
      if String.eqb (label_ each_ent) NERTag then Returns ReturnLabel
      else CheckNERTagPresence NERTag ReturnLabel rest
  end.

Definition NERTagPresence (kw : kwargs) : outcome LabelingFunction :=
  LabelingFunctionName <- getitem kw kLabelingFunctionName ;;
  NERTag <- getitem kw kNERTag ;;
  ReturnLabel <- getitem kw kReturnLabel ;;
  Returns (set_dunder_name LabelingFunctionName
             (labeling_function LabelingFunctionName
                (fun InputSpacyDoc =>
                   CheckNERTagPresence NERTag ReturnLabel (ents InputSpacyDoc)))).

Fixpoint CheckNERTagAbsence (NERTag : string) (ReturnLabel : Z)
    (ents : list Span) : outcome Z :=
  match ents with
  | [] => Returns ReturnLabel
  | each_ent :: rest =>
      if String.eqb (label_ each_ent) NERTag then Returns ABSTAIN
      else CheckNERTagAbsence NERTag ReturnLabel rest
  end.

Definition NERTagAbsence (kw : kwargs) : outcome LabelingFunction :=
  LabelingFunctionName <- getitem kw kLabelingFunctionName ;;
  NERTag <- getitem kw kNERTag ;;
  ReturnLabel <- getitem kw kReturnLabel ;;
  Returns (set_dunder_name LabelingFunctionName
             (labeling_function LabelingFunctionName
                (fun InputSpacyDoc =>
                   CheckNERTagAbsence NERTag ReturnLabel (ents InputSpacyDoc)))).

(* ------------------------------------------------------------------ *)
(** ** Sentiment threshold checker *)

(** Python's [a < b] and [a > b] on floats. *)
Definition float_lt (a b : float) : bool := SFltb a b.
Definition float_gt (a b : float) : bool := SFltb b a.

(** Python's [a == b] and [a >= b] on floats. *)
Definition float_eq (a b : float) : bool := SFeqb a b.
Definition float_ge (a b : float) : bool := SFleb b a.

(** [TextBlob(text).sentiment]: polarity and subjectivity. *)
Record Sentiment : Type := mkSentiment {
  polarity : float;
  subjectivity : float
}.

Section SentimentChecker.

(** The sentiment scorer of TextBlob. *)
Variable TextBlob : string -> Sentiment.

Definition TextBlobSentimentChecker
    (SubjectivityLower SubjectivityUpper PolarityLower PolarityUpper : float)
    (ReturnLabel : Z) (InputSpacyDoc : Doc) : outcome Z :=
  let scores := TextBlob (text InputSpacyDoc) in
  let polarity := polarity scores in
  let subjectivity := subjectivity scores in
  if float_lt polarity PolarityUpper
     && float_gt polarity PolarityLower
     && float_lt subjectivity SubjectivityUpper
     && float_gt subjectivity SubjectivityLower
  then Returns ReturnLabel
  else Returns ABSTAIN.

Definition SentimentChecker (kw : kwargs) : outcome LabelingFunction :=
  LabelingFunctionName <- getitem kw kLabelingFunctionName ;;
  SubjectivityLower <- getitem kw kSubjectivityLower ;;
  SubjectivityUpper <- getitem kw kSubjectivityUpper ;;
  PolarityLower <- getitem kw kPolarityLower ;;
  PolarityUpper <- getitem kw kPolarityUpper ;;
  ReturnLabel <- getitem kw kReturnLabel ;;
  Returns (set_dunder_name LabelingFunctionName
             (labeling_function LabelingFunctionName
                (TextBlobSentimentChecker SubjectivityLower SubjectivityUpper
                   PolarityLower PolarityUpper ReturnLabel))).

End SentimentChecker.

(* ------------------------------------------------------------------ *)
(** ** Strings *)

(** [str.lower()] on code points below U+0100: A-Z, and the Latin-1 capitals
    U+00C0..U+00DE without the multiplication sign U+00D7, move up by 32. *)
Definition chr_lower (c : ascii) : ascii :=
  let n := N_of_ascii c in
  if ((65 <=? n) && (n <=? 90))%N
     || ((192 <=? n) && (n <=? 222) && negb (n =? 215))%N
  then ascii_of_N (n + 32)
  else c.

Fixpoint str_lower (s : string) : string :=
  match s with
  | EmptyString => EmptyString
  | String c s' => String (chr_lower c) (str_lower s')
  end.

(* ------------------------------------------------------------------ *)
(** ** Keyword presence and absence *)

(** What [re.search(pattern, string)] gives: a match object, [None], or no
    answer at all. *)
Inductive search_result : Type :=
| Found
| NotFound
| Failed (e : re_failure).

Section KeywordMatch.

(** [re.search]. *)
Variable re_search : string -> string -> search_result.

Fixpoint CheckForKeywordExactMatch (ListOfKeywords : list string)
    (ReturnLabel : Z) (InputSpacyDoc : Doc) : outcome Z :=
  match ListOfKeywords with
  | [] => Returns ABSTAIN
  | each_keyword :: rest =>
      match re_search ("([^a-z0-9])" ++ each_keyword ++ "([^a-z0-9])")
                      (str_lower (text InputSpacyDoc)) with
      | Found => Returns ReturnLabel
      | NotFound => CheckForKeywordExactMatch rest ReturnLabel InputSpacyDoc
      | Failed e => Raises (ReFailure e)
      end
  end.

Definition KeywordPresenceExactMatch (kw : kwargs) : outcome LabelingFunction :=
  LabelingFunctionName <- getitem kw kLabelingFunctionName ;;
  ListOfKeywords <- getitem kw kListOfKeywords ;;
  ReturnLabel <- getitem kw kReturnLabel ;;
  Returns (set_dunder_name LabelingFunctionName
             (labeling_function LabelingFunctionName
                (CheckForKeywordExactMatch ListOfKeywords ReturnLabel))).

Fixpoint CheckForKeywordAbsenceExactMatch (ListOfKeywords : list string)
    (ReturnLabel : Z) (InputSpacyDoc : Doc) : outcome Z :=
  match ListOfKeywords with
  | [] => Returns ReturnLabel
  | each_keyword :: rest =>
      match re_search ("([^a-z0-9])" ++ each_keyword ++ "([^a-z0-9])")
                      (str_lower (text InputSpacyDoc)) with
      | Found => Returns ABSTAIN
      | NotFound =>
          CheckForKeywordAbsenceExactMatch rest ReturnLabel InputSpacyDoc
      | Failed e => Raises (ReFailure e)
      end
  end.

Definition KeywordAbsenceExactMatch (kw : kwargs) : outcome LabelingFunction :=
  LabelingFunctionName <- getitem kw kLabelingFunctionName ;;
  ListOfKeywords <- getitem kw kListOfKeywords ;;
  ReturnLabel <- getitem kw kReturnLabel ;;
  Returns (set_dunder_name LabelingFunctionName
             (labeling_function LabelingFunctionName
                (CheckForKeywordAbsenceExactMatch ListOfKeywords ReturnLabel))).

End KeywordMatch.

(* ------------------------------------------------------------------ *)
(** ** Fuzzy match of entities against a gazetteer *)

Section FuzzyMatch.

(** [fuzz.token_sort_ratio] of thefuzz. *)
Variable token_sort_ratio : string -> string -> Z.

(** [list(set(l))]: the elements of [l] in the order in which the set
    happens to be traversed. *)
Variable list_set : list string -> list string.

(** The locals that live across the iterations of the two loops. *)
Record locals : Type := mkLocals {
  max_ratio : Z;
  closest_name : option string
}.

(** The inner loop, over the names of the gazetteer. *)
Fixpoint fuzzy_names (NamedEntityInDoc : string) (names : list string)
    (l : locals) : locals :=
  match names with
  | [] => l
  | each_name :: rest =>
      let fuxzzRatio :=
        token_sort_ratio (str_lower NamedEntityInDoc) (str_lower each_name) in
      if fuxzzRatio >? max_ratio l
      then fuzzy_names NamedEntityInDoc rest (mkLocals fuxzzRatio (Some each_name))
      else fuzzy_names NamedEntityInDoc rest l
  end.

(** The outer loop, over the entities of the document. *)
Fixpoint fuzzy_ents (ListOfKeywords : list string) (ReturnLabel : Z)
    (FuzzyMatchThreshold : Z) (NERTag : string)
    (ents : list Span) (l : locals) : outcome Z :=
  match ents with
  | [] => Returns ABSTAIN
  | each_ent :: rest =>
      if String.eqb (label_ each_ent) NERTag then
        let NamedEntityInDoc := span_text each_ent in
        let l' := fuzzy_names NamedEntityInDoc (list_set ListOfKeywords) l in
        if max_ratio l' >=? FuzzyMatchThreshold
        then Returns ReturnLabel
        else fuzzy_ents ListOfKeywords ReturnLabel FuzzyMatchThreshold
               NERTag rest l'
      else fuzzy_ents ListOfKeywords ReturnLabel FuzzyMatchThreshold
             NERTag rest l
  end.

Definition CheckForNamedEntityFuzzyMatch (ListOfKeywords : list string)
    (ReturnLabel : Z) (FuzzyMatchThreshold : Z) (NERTag : string)
    (InputSpacyDoc : Doc) : outcome Z :=
  fuzzy_ents ListOfKeywords ReturnLabel FuzzyMatchThreshold NERTag
    (ents InputSpacyDoc) (mkLocals 0 None).

Definition NamedEntityFuzzyMatch (kw : kwargs) : outcome LabelingFunction :=
  LabelingFunctionName <- getitem kw kLabelingFunctionName ;;
  ListOfKeywords <- getitem kw kListOfKeywords ;;
  ReturnLabel <- getitem kw kReturnLabel ;;
  FuzzyMatchThreshold <- getitem kw kFuzzyMatchThreshold ;;
  NERTag <- getitem kw kNERTag ;;
  Returns (set_dunder_name LabelingFunctionName
             (labeling_function LabelingFunctionName
                (CheckForNamedEntityFuzzyMatch ListOfKeywords ReturnLabel
                   FuzzyMatchThreshold NERTag))).

(** *** The algorithm as the specification words it

    Entities in document order; for an entity of the target tag, the
    maximum score of that entity alone over the distinct gazetteer
    entries, both sides lowercased (the maximum counts from 0, the
    least score); the label at the first entity whose own maximum
    reaches the threshold, [ABSTAIN] when none does. *)
Definition entity_maximum (ListOfKeywords : list string) (e : Span) : Z :=
  fold_right Z.max 0
    (map (fun each_name =>
            token_sort_ratio (str_lower (span_text e)) (str_lower each_name))
         (nodup string_dec ListOfKeywords)).

Fixpoint fuzzy_reference (ListOfKeywords : list string) (ReturnLabel : Z)
    (FuzzyMatchThreshold : Z) (NERTag : string) (ents : list Span)
    : outcome Z :=
  match ents with
  | [] => Returns ABSTAIN
  | e :: rest =>
      if String.eqb (label_ e) NERTag
         && (FuzzyMatchThreshold <=? entity_maximum ListOfKeywords e)%Z
      then Returns ReturnLabel
      else fuzzy_reference ListOfKeywords ReturnLabel FuzzyMatchThreshold
             NERTag rest
  end.

End FuzzyMatch.

(* ------------------------------------------------------------------ *)
(** ** A model of [re.search] *)

(** The patterns covered are those built from literal characters, [.],
    character sets [[...]] and [[^...]] of characters and ranges, groups
    [(...)], alternation [|] and the greedy repetitions [*], [+] and [?].
    A pattern that uses anything else ([\ ] escapes, the anchors [^] and [$],
    braces, [(?...)] extensions, a repetition sign that follows another
    repetition sign, [\ ] or [[] inside a set) is answered with
    [re_outside_fragment]; a pattern of the fragment that the compiler of
    [re] rejects is answered with [re_error].  No flag is set, as in the
    source.  Without anchors, backreferences and look-around, [re.search]
    finds a match exactly when some substring of the subject belongs to
    the language of the pattern, which is what [search] decides. *)
Module PyRe.

(** *** Patterns *)

Inductive regex : Type :=
| Nothing                          (* no string at all *)
| Eps                              (* the empty string *)
| Lit (c : ascii)
| Dot                              (* any character but a newline *)
| CharSet (negate : bool) (items : list (ascii * ascii))
| Cat (r1 r2 : regex)
| Alt (r1 r2 : regex)
| Star (r : regex)
| Plus (r : regex)
| Opt (r : regex)
| Group (r : regex).

Definition chr_le (a b : ascii) : bool := (N_of_ascii a <=? N_of_ascii b)%N.

(** An item of a set is a range [lo-hi]; a single character is [c-c]. *)
Definition in_items (c : ascii) (items : list (ascii * ascii)) : bool :=
  existsb (fun it => chr_le (fst it) c && chr_le c (snd it)) items.

Definition in_set (negate : bool) (items : list (ascii * ascii)) (c : ascii)
  : bool :=
  if negate then negb (in_items c items) else in_items c items.

Definition newline : ascii := "010"%char.

(** *** Matching by derivatives *)

Fixpoint nullable (r : regex) : bool :=
  match r with
  | Nothing => false
  | Eps => true
  | Lit _ => false
  | Dot => false
  | CharSet _ _ => false
  | Cat r1 r2 => nullable r1 && nullable r2
  | Alt r1 r2 => nullable r1 || nullable r2
  | Star _ => true
  | Plus r => nullable r
  | Opt _ => true
  | Group r => nullable r
  end.

Fixpoint deriv (c : ascii) (r : regex) : regex :=
  match r with
  | Nothing => Nothing
  | Eps => Nothing
  | Lit d => if Ascii.eqb c d then Eps else Nothing
  | Dot => if Ascii.eqb c newline then Nothing else Eps
  | CharSet negate items => if in_set negate items c then Eps else Nothing
  | Cat r1 r2 =>
      if nullable r1 then Alt (Cat (deriv c r1) r2) (deriv c r2)
      else Cat (deriv c r1) r2
  | Alt r1 r2 => Alt (deriv c r1) (deriv c r2)
  | Star r => Cat (deriv c r) (Star r)
  | Plus r => Cat (deriv c r) (Star r)
  | Opt r => deriv c r
  | Group r => deriv c r
  end.

(** Does a prefix of [s] belong to the language of [r]? *)
Fixpoint match_prefix (r : regex) (s : string) : bool :=
  nullable r ||
  match s with
  | EmptyString => false
  | String c s' => match_prefix (deriv c r) s'
  end.

(** Does a substring of [s] belong to the language of [r]? *)
Fixpoint search_from (r : regex) (s : string) : bool :=
  match_prefix r s ||
  match s with
  | EmptyString => false
  | String _ s' => search_from r s'
  end.

(** *** Compiling a pattern *)

(** One nesting level of the pattern under construction: the finished
    alternatives and the atoms of the alternative being read, both latest
    first. *)
Record frame : Type := mkFrame {
  branches : list regex;
  atoms : list regex
}.

(** Where the reader is inside a set: nothing pending, a character that
    may still open a range, or a character followed by [-]. *)
Inductive set_pending : Type :=
| PNone
| PChar (c : ascii)
| PDash (c : ascii).

Inductive mode : Type :=
| Normal
| SetStart
| SetBody (negate : bool) (items : list (ascii * ascii)) (p : set_pending).

Record pstate : Type := mkPState {
  parents : list frame;
  top : frame;
  md : mode
}.

Definition seq_of (atoms : list regex) : regex :=
  fold_right Cat Eps (rev atoms).

Fixpoint alts_of (bs : list regex) : regex :=
  match bs with
  | [] => Nothing
  | [b] => b
  | b :: bs' => Alt b (alts_of bs')
  end.

Definition close_frame (f : frame) : regex :=
  alts_of (rev (seq_of (atoms f) :: branches f)).

Definition push_atom (a : regex) (st : pstate) : pstate :=
  mkPState (parents st)
           (mkFrame (branches (top st)) (a :: atoms (top st)))
           Normal.

Definition is_repeat (r : regex) : bool :=
  match r with
  | Star _ | Plus _ | Opt _ => true
  | _ => false
  end.

Definition repeat_sign (c : ascii) : option (regex -> regex) :=
  if Ascii.eqb c "*" then Some Star
  else if Ascii.eqb c "+" then Some Plus
  else if Ascii.eqb c "?" then Some Opt
  else None.

(** The characters with a meaning of their own outside a set. *)
Definition special (c : ascii) : bool :=
  existsb (Ascii.eqb c)
    ["."; "\"; "["; "{"; "("; ")"; "*"; "+"; "?"; "^"; "$"; "|"]%char.

Definition step_normal (st : pstate) (c : ascii) : re_failure + pstate :=
  if Ascii.eqb c "(" then
    inr (mkPState (top st :: parents st) (mkFrame [] []) Normal)
  else if Ascii.eqb c ")" then
    match parents st with
    | [] => inl re_error                    (* unbalanced parenthesis *)
    | p :: ps =>
        inr (mkPState ps
               (mkFrame (branches p) (Group (close_frame (top st)) :: atoms p))
               Normal)
    end
  else if Ascii.eqb c "|" then
    inr (mkPState (parents st)
           (mkFrame (seq_of (atoms (top st)) :: branches (top st)) [])
           Normal)
  else
    match repeat_sign c with
    | Some q =>
        match atoms (top st) with
        | [] =>
            match parents st, branches (top st) with
            | _ :: _, [] =>
                if Ascii.eqb c "?"
                then inl re_outside_fragment   (* an extension, "(?" *)
                else inl re_error              (* nothing to repeat *)
            | _, _ => inl re_error             (* nothing to repeat *)
            end
        | a :: rest =>
            if is_repeat a then inl re_outside_fragment
            else inr (mkPState (parents st)
                        (mkFrame (branches (top st)) (q a :: rest))
                        Normal)
        end
    | None =>
        if Ascii.eqb c "." then inr (push_atom Dot st)
        else if Ascii.eqb c "[" then
          inr (mkPState (parents st) (top st) SetStart)
        else if special c then inl re_outside_fragment
        else inr (push_atom (Lit c) st)
    end.

Definition close_set (st : pstate) (negate : bool)
    (items : list (ascii * ascii)) : pstate :=
  push_atom (CharSet negate items) st.

Definition step_set (st : pstate) (negate : bool)
    (items : list (ascii * ascii)) (p : set_pending) (c : ascii)
  : re_failure + pstate :=
  let continue items p :=
    inr (mkPState (parents st) (top st) (SetBody negate items p)) in
  match p with
  | PNone =>
      if Ascii.eqb c "]" then
        match items with
        | [] => continue items (PChar c)       (* a first "]" is literal *)
        | _ :: _ => inr (close_set st negate items)
        end
      else if Ascii.eqb c "\" || Ascii.eqb c "[" then inl re_outside_fragment
      else continue items (PChar c)
  | PChar x =>
      if Ascii.eqb c "-" then continue items (PDash x)
      else if Ascii.eqb c "]" then
        inr (close_set st negate (items ++ [(x, x)])%list)
      else if Ascii.eqb c "\" || Ascii.eqb c "[" then inl re_outside_fragment
      else continue (items ++ [(x, x)])%list (PChar c)
  | PDash x =>
      if Ascii.eqb c "]" then
        inr (close_set st negate (items ++ [(x, x); ("-", "-")]%char)%list)
      else if Ascii.eqb c "\" || Ascii.eqb c "[" then inl re_outside_fragment
      else if chr_le x c then continue (items ++ [(x, c)])%list PNone
      else inl re_error                        (* bad character range *)
  end.

Definition step (st : pstate) (c : ascii) : re_failure + pstate :=
  match md st with
  | Normal => step_normal st c
  | SetStart =>
      if Ascii.eqb c "^" then
        inr (mkPState (parents st) (top st) (SetBody true [] PNone))
      else step_set st false [] PNone c
  | SetBody negate items p => step_set st negate items p c
  end.

Fixpoint run (s : string) (st : pstate) : re_failure + pstate :=
  match s with
  | EmptyString => inr st
  | String c s' =>
      match step st c with
      | inl e => inl e
      | inr st' => run s' st'
      end
  end.

Definition finish (st : pstate) : re_failure + regex :=
  match md st, parents st with
  | Normal, [] => inr (close_frame (top st))
  | _, _ => inl re_error       (* unterminated set or missing ")" *)
  end.

Definition initial : pstate := mkPState [] (mkFrame [] []) Normal.

(** [re.compile(pattern)]. *)
Definition compile (pattern : string) : re_failure + regex :=
  match run pattern initial with
  | inl e => inl e
  | inr st => finish st
  end.

(** [re.search(pattern, string)]. *)
Definition search (pattern : string) (s : string) : search_result :=
  match compile pattern with
  | inl e => Failed e
  | inr r => if search_from r s then Found else NotFound
  end.

(** *** The language of a pattern *)

Inductive matches : regex -> string -> Prop :=
| MEps : matches Eps ""
| MLit c : matches (Lit c) (String c "")
| MDot c : c <> newline -> matches Dot (String c "")
| MSet negate items c :
    in_set negate items c = true -> matches (CharSet negate items) (String c "")
| MCat r1 r2 s1 s2 :
    matches r1 s1 -> matches r2 s2 -> matches (Cat r1 r2) (s1 ++ s2)
| MAltL r1 r2 s : matches r1 s -> matches (Alt r1 r2) s
| MAltR r1 r2 s : matches r2 s -> matches (Alt r1 r2) s
| MStar0 r : matches (Star r) ""
| MStarS r s1 s2 :
    matches r s1 -> matches (Star r) s2 -> matches (Star r) (s1 ++ s2)
| MPlus r s1 s2 :
    matches r s1 -> matches (Star r) s2 -> matches (Plus r) (s1 ++ s2)
| MOpt0 r : matches (Opt r) ""
| MOptS r s : matches r s -> matches (Opt r) s
| MGroup r s : matches r s -> matches (Group r) s.

End PyRe.

(* ------------------------------------------------------------------ *)
(** ** Vocabulary of the keyword properties *)

(** A character outside [[a-z0-9]]. *)
Definition boundary (c : ascii) : bool :=
  PyRe.in_set true [("a", "z"); ("0", "9")]%char c.

(** [keyword] occurs in [s] as a literal string with a boundary character
    right before it and another right after it. *)
Definition bounded_occurrence (keyword s : string) : Prop :=
  exists (before after : string) (c1 c2 : ascii),
    s = before ++ String c1 (keyword ++ String c2 after)
    /\ boundary c1 = true /\ boundary c2 = true.

(** A keyword none of whose characters has a meaning of its own in a
    pattern. *)
Fixpoint plain (keyword : string) : bool :=
  match keyword with
  | EmptyString => true
  | String c rest => negb (PyRe.special c) && plain rest
  end.

(** [keyword] occurs in [s] as a literal string at offset [i]. *)
Definition occurs_at (keyword s : string) (i : nat) : Prop :=
  exists (before after : string),
    s = before ++ keyword ++ after /\ String.length before = i.

(** The pattern the keyword closures hand to [re.search] for a keyword. *)
Definition keyword_pattern (each_keyword : string) : string :=
  "([^a-z0-9])" ++ each_keyword ++ "([^a-z0-9])".

(** The pattern pieces that a plain keyword contributes: its characters as
    literals, pushed on the atoms read so far ([lits_rev]) and chained in
    front of a continuation ([lits]). *)
Fixpoint lits_rev (keyword : string) (acc : list PyRe.regex) : list PyRe.regex :=
  match keyword with
  | EmptyString => acc
  | String c rest => lits_rev rest (PyRe.Lit c :: acc)
  end.

Fixpoint lits (keyword : string) (k : PyRe.regex) : PyRe.regex :=
  match keyword with
  | EmptyString => k
  | String c rest => PyRe.Cat (PyRe.Lit c) (lits rest k)
  end.

(** The group [([^a-z0-9])] as [PyRe.compile] reads it. *)
Definition boundary_group : PyRe.regex :=
  PyRe.Group (PyRe.Cat (PyRe.CharSet true [("a", "z"); ("0", "9")]%char) PyRe.Eps).

(* ------------------------------------------------------------------ *)
(** ** The six builders side by side *)

Inductive builder : Type :=
| B_NERTagPresence
| B_NERTagAbsence
| B_SentimentChecker
| B_KeywordPresenceExactMatch
| B_NamedEntityFuzzyMatch
| B_KeywordAbsenceExactMatch.

(** The keys a builder reads, in the order in which its body reads them. *)
Definition required (b : builder) : list key :=
  match b with
  | B_NERTagPresence | B_NERTagAbsence =>
      [kLabelingFunctionName; kNERTag; kReturnLabel]
  | B_SentimentChecker =>
      [kLabelingFunctionName; kSubjectivityLower; kSubjectivityUpper;
       kPolarityLower; kPolarityUpper; kReturnLabel]
  | B_KeywordPresenceExactMatch | B_KeywordAbsenceExactMatch =>
      [kLabelingFunctionName; kListOfKeywords; kReturnLabel]
  | B_NamedEntityFuzzyMatch =>
      [kLabelingFunctionName; kListOfKeywords; kReturnLabel;
       kFuzzyMatchThreshold; kNERTag]
  end.

Definition is_missing (kw : kwargs) (k : key) : bool :=
  match kw k with
  | Some _ => false
  | None => true
  end.

(** The first key of [ks] that [kw] lacks. *)
Definition first_missing (kw : kwargs) (ks : list key) : option key :=
  find (is_missing kw) ks.

Definition uses_re_search (b : builder) : bool :=
  match b with
  | B_KeywordPresenceExactMatch | B_KeywordAbsenceExactMatch => true
  | _ => false
  end.

Section Builders.

Variable TextBlob : string -> Sentiment.
Variable re_search : string -> string -> search_result.
Variable token_sort_ratio : string -> string -> Z.
Variable list_set : list string -> list string.

Definition build (b : builder) : kwargs -> outcome LabelingFunction :=
  match b with
  | B_NERTagPresence => NERTagPresence
  | B_NERTagAbsence => NERTagAbsence
  | B_SentimentChecker => SentimentChecker TextBlob
  | B_KeywordPresenceExactMatch => KeywordPresenceExactMatch re_search
  | B_NamedEntityFuzzyMatch => NamedEntityFuzzyMatch token_sort_ratio list_set
  | B_KeywordAbsenceExactMatch => KeywordAbsenceExactMatch re_search
  end.

End Builders.

(* ------------------------------------------------------------------ *)
(** ** Sample configurations and collaborators *)

Definition no_kwargs : kwargs := fun _ => None.

(** [dict(LabelingFunctionName=..., NERTag=..., ReturnLabel=...)]. *)
Definition ner_kwargs (LabelingFunctionName NERTag : string) (ReturnLabel : Z)
  : kwargs :=
  fun k =>
    match k with
    | kLabelingFunctionName => Some LabelingFunctionName
    | kNERTag => Some NERTag
    | kReturnLabel => Some ReturnLabel
    | _ => None
    end.

(** [dict(LabelingFunctionName=..., ListOfKeywords=..., ReturnLabel=...)]. *)
Definition keyword_kwargs (LabelingFunctionName : string)
    (ListOfKeywords : list string) (ReturnLabel : Z) : kwargs :=
  fun k =>
    match k with
    | kLabelingFunctionName => Some LabelingFunctionName
    | kListOfKeywords => Some ListOfKeywords
    | kReturnLabel => Some ReturnLabel
    | _ => None
    end.

Definition fuzzy_kwargs (LabelingFunctionName : string)
    (ListOfKeywords : list string) (ReturnLabel FuzzyMatchThreshold : Z)
    (NERTag : string) : kwargs :=
  fun k =>
    match k with
    | kLabelingFunctionName => Some LabelingFunctionName
    | kListOfKeywords => Some ListOfKeywords
    | kReturnLabel => Some ReturnLabel
    | kFuzzyMatchThreshold => Some FuzzyMatchThreshold
    | kNERTag => Some NERTag
    | _ => None
    end.

Definition sentiment_kwargs (LabelingFunctionName : string)
    (SubjectivityLower SubjectivityUpper PolarityLower PolarityUpper : float)
    (ReturnLabel : Z) : kwargs :=
  fun k =>
    match k with
    | kLabelingFunctionName => Some LabelingFunctionName
    | kSubjectivityLower => Some SubjectivityLower
    | kSubjectivityUpper => Some SubjectivityUpper
    | kPolarityLower => Some PolarityLower
    | kPolarityUpper => Some PolarityUpper
    | kReturnLabel => Some ReturnLabel
    | _ => None
    end.

(** The binary64 values 0.0, 0.5 and 1.0. *)
Definition f0 : float := S754_zero false.
Definition f_half : float := S754_finite false 4503599627370496 (-53).
Definition f1 : float := S754_finite false 4503599627370496 (-52).

(** A scorer that answers 0.0 and 0.0, as TextBlob does on a text without
    any word of its lexicon. *)
Definition neutral_scorer (_ : string) : Sentiment := mkSentiment f0 f0.

(** A stand-in for [fuzz.token_sort_ratio]: 100 on equal strings, 0
    otherwise. *)
Definition exact_ratio (a b : string) : Z :=
  if String.eqb a b then 100 else 0.

(* ================================================================== *)
(** * Properties *)

(** ** What a builder that succeeded has read *)

Ltac read_keys kw :=
  repeat match goal with
         | |- context [kw ?k] => destruct (kw k) eqn:?; simpl; try discriminate
         end.

Lemma NERTagPresence_inv (kw : kwargs) (lf : LabelingFunction) :
  NERTagPresence kw = Returns lf ->
  exists n t r,
    kw kLabelingFunctionName = Some n /\ kw kNERTag = Some t
    /\ kw kReturnLabel = Some r
    /\ lf = set_dunder_name n
              (labeling_function n
                 (fun d => CheckNERTagPresence t r (ents d))).
Proof.
  unfold NERTagPresence, getitem; read_keys kw.
  intros H; injection H as <-; eauto 8.
Qed.

Lemma NERTagAbsence_inv (kw : kwargs) (lf : LabelingFunction) :
  NERTagAbsence kw = Returns lf ->
  exists n t r,
    kw kLabelingFunctionName = Some n /\ kw kNERTag = Some t
    /\ kw kReturnLabel = Some r
    /\ lf = set_dunder_name n
              (labeling_function n
                 (fun d => CheckNERTagAbsence t r (ents d))).
Proof.
  unfold NERTagAbsence, getitem; read_keys kw.
  intros H; injection H as <-; eauto 8.
Qed.

Lemma SentimentChecker_inv TextBlob (kw : kwargs) (lf : LabelingFunction) :
  SentimentChecker TextBlob kw = Returns lf ->
  exists n sl su pl pu r,
    kw kLabelingFunctionName = Some n
    /\ kw kSubjectivityLower = Some sl /\ kw kSubjectivityUpper = Some su
    /\ kw kPolarityLower = Some pl /\ kw kPolarityUpper = Some pu
    /\ kw kReturnLabel = Some r
    /\ lf = set_dunder_name n
              (labeling_function n
                 (TextBlobSentimentChecker TextBlob sl su pl pu r)).
Proof.
  unfold SentimentChecker, getitem; read_keys kw.
  intros H; injection H as <-; eauto 14.
Qed.

Lemma KeywordPresenceExactMatch_inv re_search (kw : kwargs) (lf : LabelingFunction) :
  KeywordPresenceExactMatch re_search kw = Returns lf ->
  exists n ks r,
    kw kLabelingFunctionName = Some n /\ kw kListOfKeywords = Some ks
    /\ kw kReturnLabel = Some r
    /\ lf = set_dunder_name n
              (labeling_function n
                 (CheckForKeywordExactMatch re_search ks r)).
Proof.
  unfold KeywordPresenceExactMatch, getitem; read_keys kw.
  intros H; injection H as <-; eauto 8.
Qed.

Lemma KeywordAbsenceExactMatch_inv re_search (kw : kwargs) (lf : LabelingFunction) :
  KeywordAbsenceExactMatch re_search kw = Returns lf ->
  exists n ks r,
    kw kLabelingFunctionName = Some n /\ kw kListOfKeywords = Some ks
    /\ kw kReturnLabel = Some r
    /\ lf = set_dunder_name n
              (labeling_function n
                 (CheckForKeywordAbsenceExactMatch re_search ks r)).
Proof.
  unfold KeywordAbsenceExactMatch, getitem; read_keys kw.
  intros H; injection H as <-; eauto 8.
Qed.

Lemma NamedEntityFuzzyMatch_inv ratio list_set (kw : kwargs) (lf : LabelingFunction) :
  NamedEntityFuzzyMatch ratio list_set kw = Returns lf ->
  exists n ks r th t,
    kw kLabelingFunctionName = Some n /\ kw kListOfKeywords = Some ks
    /\ kw kReturnLabel = Some r /\ kw kFuzzyMatchThreshold = Some th
    /\ kw kNERTag = Some t
    /\ lf = set_dunder_name n (labeling_function n
              (CheckForNamedEntityFuzzyMatch ratio list_set ks r th t)).
Proof.
  unfold NamedEntityFuzzyMatch, getitem; read_keys kw.
  intros H; injection H as <-; eauto 12.
Qed.

(** ** Entity-tag presence and absence *)

Lemma ner_scan_cases (t : string) (r : Z) (es : list Span) :
  (CheckNERTagPresence t r es = Returns r
   /\ CheckNERTagAbsence t r es = Returns ABSTAIN)
  \/ (CheckNERTagPresence t r es = Returns ABSTAIN
      /\ CheckNERTagAbsence t r es = Returns r).
Proof.
  induction es as [|e es IH]; simpl.
  - right; split; reflexivity.
  - destruct (String.eqb (label_ e) t); [left; split; reflexivity | exact IH].
Qed.

(** C1. The entity-tag presence and absence functions built from
    configurations with the same tag and the same label are complements on
    every document: presence returns the label exactly when absence
    abstains, presence abstains exactly when absence returns the label,
    and on a document without entities presence abstains and absence
    returns the label. *)
Theorem ner_presence_absence_complement
    (kwp kwa : kwargs) (presence absence : LabelingFunction)
    (NERTag : string) (ReturnLabel : Z) :
  NERTagPresence kwp = Returns presence ->
  NERTagAbsence kwa = Returns absence ->
  kwp kNERTag = Some NERTag -> kwa kNERTag = Some NERTag ->
  kwp kReturnLabel = Some ReturnLabel -> kwa kReturnLabel = Some ReturnLabel ->
  forall doc : Doc,
    (call presence doc = Returns ReturnLabel
     <-> call absence doc = Returns ABSTAIN)
    /\ (call presence doc = Returns ABSTAIN
        <-> call absence doc = Returns ReturnLabel)
    /\ (ents doc = [] ->
        call presence doc = Returns ABSTAIN
        /\ call absence doc = Returns ReturnLabel).
Proof.
  intros Hp Ha Htp Hta Hrp Hra doc.
  apply NERTagPresence_inv in Hp as (np & tp & rp & _ & Htp' & Hrp' & ->).
  apply NERTagAbsence_inv in Ha as (na & ta & ra & _ & Hta' & Hra' & ->).
  assert (tp = NERTag) by congruence.
  assert (ta = NERTag) by congruence.
  assert (rp = ReturnLabel) by congruence.
  assert (ra = ReturnLabel) by congruence.
  subst; simpl.
  destruct (ner_scan_cases NERTag ReturnLabel (ents doc)) as [[P A]|[P A]];
    rewrite P, A.
  - split; [split; reflexivity|].
    split; [split; congruence|].
    intros E; rewrite E in P; simpl in P; split; congruence.
  - split; [split; congruence|].
    split; [split; reflexivity|].
    intros _; split; reflexivity.
Qed.

Lemma ner_presence_absence_complement_witness :
  exists presence absence,
    NERTagPresence (ner_kwargs "LF_org" "ORG" 1) = Returns presence
    /\ NERTagAbsence (ner_kwargs "LF_org" "ORG" 1) = Returns absence
    /\ (call presence (mkDoc "Acme Corp hired Jane" [mkSpan "Acme Corp" "ORG"])
        = Returns 1
        <-> call absence (mkDoc "Acme Corp hired Jane" [mkSpan "Acme Corp" "ORG"])
            = Returns ABSTAIN).
Proof.
  eexists; eexists.
  split; [reflexivity|]. split; [reflexivity|].
  apply (@ner_presence_absence_complement
           (ner_kwargs "LF_org" "ORG" 1) (ner_kwargs "LF_org" "ORG" 1)
           _ _ "ORG" 1
           eq_refl eq_refl eq_refl eq_refl eq_refl eq_refl).
Defined.

(** ** Shapes of the results of the closures *)

Lemma sentiment_cases TextBlob (sl su pl pu : float) (r : Z) (d : Doc) :
  TextBlobSentimentChecker TextBlob sl su pl pu r d = Returns r
  \/ TextBlobSentimentChecker TextBlob sl su pl pu r d = Returns ABSTAIN.
Proof.
  unfold TextBlobSentimentChecker.
  destruct (_ && _); [left | right]; reflexivity.
Qed.

Lemma keyword_presence_cons re_search (k : string) (ks : list string)
    (r : Z) (d : Doc) :
  CheckForKeywordExactMatch re_search (k :: ks) r d
  = match re_search (keyword_pattern k) (str_lower (text d)) with
    | Found => Returns r
    | NotFound => CheckForKeywordExactMatch re_search ks r d
    | Failed e => Raises (ReFailure e)
    end.
Proof. reflexivity. Qed.

Lemma keyword_absence_cons re_search (k : string) (ks : list string)
    (r : Z) (d : Doc) :
  CheckForKeywordAbsenceExactMatch re_search (k :: ks) r d
  = match re_search (keyword_pattern k) (str_lower (text d)) with
    | Found => Returns ABSTAIN
    | NotFound => CheckForKeywordAbsenceExactMatch re_search ks r d
    | Failed e => Raises (ReFailure e)
    end.
Proof. reflexivity. Qed.

Lemma keyword_scan_cases re_search (ks : list string) (r : Z) (d : Doc) :
  (CheckForKeywordExactMatch re_search ks r d = Returns r
   /\ CheckForKeywordAbsenceExactMatch re_search ks r d = Returns ABSTAIN)
  \/ (CheckForKeywordExactMatch re_search ks r d = Returns ABSTAIN
      /\ CheckForKeywordAbsenceExactMatch re_search ks r d = Returns r)
  \/ (exists e keyword,
         In keyword ks
         /\ re_search (keyword_pattern keyword) (str_lower (text d)) = Failed e
         /\ CheckForKeywordExactMatch re_search ks r d = Raises (ReFailure e)
         /\ CheckForKeywordAbsenceExactMatch re_search ks r d
            = Raises (ReFailure e)).
Proof.
  induction ks as [|k ks IH].
  - right; left; split; reflexivity.
  - rewrite keyword_presence_cons, keyword_absence_cons.
    destruct (re_search (keyword_pattern k) (str_lower (text d)))
      as [| |e] eqn:S.
    + left; split; reflexivity.
    + destruct IH as [IH|[IH|(e & k' & Hin & Hs & HP & HA)]];
        [left; exact IH | right; left; exact IH |].
      right; right; exists e, k'; repeat split; auto; right; exact Hin.
    + right; right; exists e, k; repeat split; auto; left; reflexivity.
Qed.

Lemma fuzzy_ents_cases ratio list_set (ks : list string) (r th : Z)
    (t : string) (es : list Span) (l : locals) :
  fuzzy_ents ratio list_set ks r th t es l = Returns r
  \/ fuzzy_ents ratio list_set ks r th t es l = Returns ABSTAIN.
Proof.
  revert l; induction es as [|e es IH]; intros l; simpl.
  - right; reflexivity.
  - destruct (String.eqb (label_ e) t); [|apply IH].
    destruct (_ >=? th); [left; reflexivity | apply IH].
Qed.

(** ** Construction-time failure on a missing key *)

Lemma first_missing_some (kw : kwargs) (ks : list key) (k : key) :
  first_missing kw ks = Some k -> In k ks /\ kw k = None.
Proof.
  unfold first_missing; intros H; apply find_some in H as [Hin Hm].
  split; [exact Hin|].
  unfold is_missing in Hm; destruct (kw k); [discriminate | reflexivity].
Qed.

Lemma first_missing_none (kw : kwargs) (ks : list key) :
  first_missing kw ks = None -> forall k, In k ks -> kw k <> None.
Proof.
  unfold first_missing; intros H k Hin E.
  pose proof (find_none _ _ H k Hin) as Hm.
  unfold is_missing in Hm; rewrite E in Hm; discriminate.
Qed.

(** C7. Each of the six builders reads its required keys when it is
    called: when one is missing the builder raises [KeyError] for the first
    missing key and produces no function at all, when none is missing it
    produces a function; and a function that was produced never raises
    [KeyError] on a document. *)
Theorem missing_key_fails_at_construction
    (TextBlob : string -> Sentiment)
    (re_search : string -> string -> search_result)
    (token_sort_ratio : string -> string -> Z)
    (list_set : list string -> list string)
    (b : builder) (kw : kwargs) :
  let build_b := build TextBlob re_search token_sort_ratio list_set b in
  match first_missing kw (required b) with
  | Some k => In k (required b) /\ kw k = None
              /\ build_b kw = Raises (KeyError k)
  | None => (forall k, In k (required b) -> kw k <> None)
            /\ exists lf, build_b kw = Returns lf
  end
  /\ (forall lf doc k,
         build_b kw = Returns lf -> call lf doc <> Raises (KeyError k)).
Proof.
  intros build_b; split.
  - destruct (first_missing kw (required b)) as [k|] eqn:F.
    + destruct (first_missing_some _ _ F) as [Hin Hk].
      split; [exact Hin|]. split; [exact Hk|].
      clear Hin Hk; revert F.
      unfold first_missing, is_missing, build_b.
      destruct b; simpl;
        unfold NERTagPresence, NERTagAbsence, SentimentChecker,
          KeywordPresenceExactMatch, KeywordAbsenceExactMatch,
          NamedEntityFuzzyMatch, getitem;
        repeat match goal with
               | |- context [kw ?x] => destruct (kw x); simpl
               end;
        intros F; try discriminate; injection F as <-; reflexivity.
    + split; [exact (first_missing_none _ _ F)|].
      revert F.
      unfold first_missing, is_missing, build_b.
      destruct b; simpl;
        unfold NERTagPresence, NERTagAbsence, SentimentChecker,
          KeywordPresenceExactMatch, KeywordAbsenceExactMatch,
          NamedEntityFuzzyMatch, getitem;
        repeat match goal with
               | |- context [kw ?x] => destruct (kw x); simpl
               end;
        intros F; try discriminate; eexists; reflexivity.
  - intros lf doc k H; unfold build_b in H; destruct b; simpl in H.
    + apply NERTagPresence_inv in H as (n & t & r & _ & _ & _ & ->); simpl.
      destruct (ner_scan_cases t r (ents doc)) as [[P _]|[P _]];
        rewrite P; discriminate.
    + apply NERTagAbsence_inv in H as (n & t & r & _ & _ & _ & ->); simpl.
      destruct (ner_scan_cases t r (ents doc)) as [[_ A]|[_ A]];
        rewrite A; discriminate.
    + apply SentimentChecker_inv in H
        as (n & sl & su & pl & pu & r & _ & _ & _ & _ & _ & _ & ->); simpl.
      destruct (sentiment_cases TextBlob sl su pl pu r doc) as [E|E];
        rewrite E; discriminate.
    + apply KeywordPresenceExactMatch_inv in H
        as (n & ks & r & _ & _ & _ & ->); simpl.
      destruct (keyword_scan_cases re_search ks r doc)
        as [[P _]|[[P _]|(e & k' & _ & _ & P & _)]]; rewrite P; discriminate.
    + apply NamedEntityFuzzyMatch_inv in H
        as (n & ks & r & th & t & _ & _ & _ & _ & _ & ->); simpl.
      unfold CheckForNamedEntityFuzzyMatch.
      destruct (fuzzy_ents_cases token_sort_ratio list_set ks r th t
                  (ents doc) (mkLocals 0 None)) as [E|E];
        rewrite E; discriminate.
    + apply KeywordAbsenceExactMatch_inv in H
        as (n & ks & r & _ & _ & _ & ->); simpl.
      destruct (keyword_scan_cases re_search ks r doc)
        as [[_ A]|[[_ A]|(e & k' & _ & _ & _ & A)]]; rewrite A; discriminate.
Qed.

Lemma missing_key_fails_at_construction_witness :
  NERTagPresence (fun k => match k with
                           | kNERTag => Some "ORG"
                           | _ => None
                           end)
  = Raises (KeyError kLabelingFunctionName)
  /\ exists lf,
       NamedEntityFuzzyMatch exact_ratio (nodup string_dec)
         (fuzzy_kwargs "LF_gaz" ["acme corp"] 1 90 "ORG") = Returns lf
       /\ call lf (mkDoc "Acme Corp" [mkSpan "Acme Corp" "ORG"])
          <> Raises (KeyError kNERTag).
Proof.
  split.
  - exact (proj2 (proj2 (proj1
      (missing_key_fails_at_construction neutral_scorer PyRe.search
         exact_ratio (nodup string_dec) B_NERTagPresence
         (fun k => match k with
                   | kNERTag => Some "ORG"
                   | _ => None
                   end))))).
  - eexists; split; [reflexivity|].
    exact (proj2
      (missing_key_fails_at_construction neutral_scorer PyRe.search
         exact_ratio (nodup string_dec) B_NamedEntityFuzzyMatch
         (fuzzy_kwargs "LF_gaz" ["acme corp"] 1 90 "ORG"))
      _ (mkDoc "Acme Corp" [mkSpan "Acme Corp" "ORG"]) kNERTag eq_refl).
Defined.

(** ** Range of the produced functions *)

(** C8. Whatever the builder and the configuration, the produced function
    gives on a document the configured label or [ABSTAIN], and [ABSTAIN]
    is -1.  The four builders that do not call [re.search] always return
    one of the two; the two keyword builders return one of the two unless
    [re.search] itself fails on the pattern of a keyword of the list, in
    which case that failure is what the call raises.  No other value is
    ever returned. *)
Theorem result_is_label_or_abstain
    (TextBlob : string -> Sentiment)
    (re_search : string -> string -> search_result)
    (token_sort_ratio : string -> string -> Z)
    (list_set : list string -> list string)
    (b : builder) (kw : kwargs) (lf : LabelingFunction) (ReturnLabel : Z) :
  build TextBlob re_search token_sort_ratio list_set b kw = Returns lf ->
  kw kReturnLabel = Some ReturnLabel ->
  forall doc : Doc,
    (call lf doc = Returns ReturnLabel
     \/ call lf doc = Returns ABSTAIN
     \/ (uses_re_search b = true
         /\ exists e ks keyword,
              kw kListOfKeywords = Some ks /\ In keyword ks
              /\ re_search (keyword_pattern keyword) (str_lower (text doc))
                 = Failed e
              /\ call lf doc = Raises (ReFailure e)))
    /\ (forall v, call lf doc = Returns v -> v = ReturnLabel \/ v = ABSTAIN)
    /\ ABSTAIN = -1.
Proof.
  intros H HR doc.
  assert (D : call lf doc = Returns ReturnLabel
     \/ call lf doc = Returns ABSTAIN
     \/ (uses_re_search b = true
         /\ exists e ks keyword,
              kw kListOfKeywords = Some ks /\ In keyword ks
              /\ re_search (keyword_pattern keyword) (str_lower (text doc))
                 = Failed e
              /\ call lf doc = Raises (ReFailure e))).
  { destruct b; simpl in H.
    - apply NERTagPresence_inv in H as (n & t & r & _ & _ & Hr & ->); simpl.
      assert (r = ReturnLabel) by congruence; subst r.
      destruct (ner_scan_cases t ReturnLabel (ents doc)) as [[P _]|[P _]]; auto.
    - apply NERTagAbsence_inv in H as (n & t & r & _ & _ & Hr & ->); simpl.
      assert (r = ReturnLabel) by congruence; subst r.
      destruct (ner_scan_cases t ReturnLabel (ents doc)) as [[_ A]|[_ A]]; auto.
    - apply SentimentChecker_inv in H
        as (n & sl & su & pl & pu & r & _ & _ & _ & _ & _ & Hr & ->); simpl.
      assert (r = ReturnLabel) by congruence; subst r.
      destruct (sentiment_cases TextBlob sl su pl pu ReturnLabel doc); auto.
    - apply KeywordPresenceExactMatch_inv in H
        as (n & ks & r & _ & Hk & Hr & ->); simpl.
      assert (r = ReturnLabel) by congruence; subst r.
      destruct (keyword_scan_cases re_search ks ReturnLabel doc)
        as [[P _]|[[P _]|(e & k' & Hin & Hs & P & _)]]; auto.
      right; right; split; [reflexivity|]; exists e, ks, k'; auto.
    - apply NamedEntityFuzzyMatch_inv in H
        as (n & ks & r & th & t & _ & _ & Hr & _ & _ & ->); simpl.
      assert (r = ReturnLabel) by congruence; subst r.
      unfold CheckForNamedEntityFuzzyMatch.
      destruct (fuzzy_ents_cases token_sort_ratio list_set ks ReturnLabel th t
                  (ents doc) (mkLocals 0 None)); auto.
    - apply KeywordAbsenceExactMatch_inv in H
        as (n & ks & r & _ & Hk & Hr & ->); simpl.
      assert (r = ReturnLabel) by congruence; subst r.
      destruct (keyword_scan_cases re_search ks ReturnLabel doc)
        as [[_ A]|[[_ A]|(e & k' & Hin & Hs & _ & A)]]; auto.
      right; right; split; [reflexivity|]; exists e, ks, k'; auto. }
  split; [exact D|]. split; [|reflexivity].
  intros v Hv.
  destruct D as [D|[D|(_ & e & ks & k' & _ & _ & _ & D)]];
    rewrite D in Hv; [left | right | discriminate]; congruence.
Qed.

Lemma result_is_label_or_abstain_witness :
  exists lf,
    NERTagPresence (ner_kwargs "LF_org" "ORG" 1) = Returns lf
    /\ (call lf (mkDoc "Jane" [mkSpan "Jane" "PERSON"]) = Returns 1
        \/ call lf (mkDoc "Jane" [mkSpan "Jane" "PERSON"]) = Returns ABSTAIN
        \/ False).
Proof.
  eexists; split; [reflexivity|].
  destruct (proj1
    (@result_is_label_or_abstain neutral_scorer PyRe.search exact_ratio
       (nodup string_dec) B_NERTagPresence (ner_kwargs "LF_org" "ORG" 1)
       _ 1 eq_refl eq_refl (mkDoc "Jane" [mkSpan "Jane" "PERSON"])))
    as [H|[H|[H _]]].
  - left; exact H.
  - right; left; exact H.
  - discriminate H.
Defined.

(** ** Keyword presence and absence are complements *)

(** C2. Whatever [re.search] answers, the keyword presence and absence
    functions built from configurations with the same keyword list and the
    same label are complements on every document: presence returns the
    label exactly when absence abstains, and presence abstains exactly
    when absence returns the label. *)
Theorem keyword_presence_absence_complement
    (re_search : string -> string -> search_result)
    (kwp kwa : kwargs) (presence absence : LabelingFunction)
    (ListOfKeywords : list string) (ReturnLabel : Z) :
  KeywordPresenceExactMatch re_search kwp = Returns presence ->
  KeywordAbsenceExactMatch re_search kwa = Returns absence ->
  kwp kListOfKeywords = Some ListOfKeywords ->
  kwa kListOfKeywords = Some ListOfKeywords ->
  kwp kReturnLabel = Some ReturnLabel ->
  kwa kReturnLabel = Some ReturnLabel ->
  forall doc : Doc,
    (call presence doc = Returns ReturnLabel
     <-> call absence doc = Returns ABSTAIN)
    /\ (call presence doc = Returns ABSTAIN
        <-> call absence doc = Returns ReturnLabel).
Proof.
  intros Hp Ha Hkp Hka Hrp Hra doc.
  apply KeywordPresenceExactMatch_inv in Hp as (np & kp & rp & _ & Hkp' & Hrp' & ->).
  apply KeywordAbsenceExactMatch_inv in Ha as (na & ka & ra & _ & Hka' & Hra' & ->).
  assert (kp = ListOfKeywords) by congruence.
  assert (ka = ListOfKeywords) by congruence.
  assert (rp = ReturnLabel) by congruence.
  assert (ra = ReturnLabel) by congruence.
  subst; simpl.
  destruct (keyword_scan_cases re_search ListOfKeywords ReturnLabel doc)
    as [[P A]|[[P A]|(e & k & _ & _ & P & A)]]; rewrite P, A.
  - split; [split; reflexivity | split; congruence].
  - split; [split; congruence | split; reflexivity].
  - split; split; discriminate.
Qed.

Lemma keyword_presence_absence_complement_witness :
  exists presence absence,
    KeywordPresenceExactMatch PyRe.search (keyword_kwargs "LF_fraud" ["fraud"] 2)
    = Returns presence
    /\ KeywordAbsenceExactMatch PyRe.search (keyword_kwargs "LF_fraud" ["fraud"] 2)
       = Returns absence
    /\ (call presence (mkDoc "we detected fraud here" []) = Returns 2
        <-> call absence (mkDoc "we detected fraud here" []) = Returns ABSTAIN).
Proof.
  eexists; eexists.
  split; [reflexivity|]. split; [reflexivity|].
  exact (proj1
    (@keyword_presence_absence_complement PyRe.search
       (keyword_kwargs "LF_fraud" ["fraud"] 2)
       (keyword_kwargs "LF_fraud" ["fraud"] 2)
       _ _ ["fraud"] 2 eq_refl eq_refl eq_refl eq_refl eq_refl eq_refl
       (mkDoc "we detected fraud here" []))).
Defined.

(** ** The empty keyword list *)

(** C10. With the empty keyword list the presence function abstains on
    every document and the absence function returns the label on every
    document; [re.search] is never consulted. *)
Theorem empty_keyword_list
    (re_search : string -> string -> search_result)
    (kwp kwa : kwargs) (presence absence : LabelingFunction) (ReturnLabel : Z) :
  KeywordPresenceExactMatch re_search kwp = Returns presence ->
  KeywordAbsenceExactMatch re_search kwa = Returns absence ->
  kwp kListOfKeywords = Some [] ->
  kwa kListOfKeywords = Some [] ->
  kwa kReturnLabel = Some ReturnLabel ->
  forall doc : Doc,
    call presence doc = Returns ABSTAIN
    /\ call absence doc = Returns ReturnLabel.
Proof.
  intros Hp Ha Hkp Hka Hra doc.
  apply KeywordPresenceExactMatch_inv in Hp as (np & kp & rp & _ & Hkp' & _ & ->).
  apply KeywordAbsenceExactMatch_inv in Ha as (na & ka & ra & _ & Hka' & Hra' & ->).
  assert (kp = []) by congruence.
  assert (ka = []) by congruence.
  assert (ra = ReturnLabel) by congruence.
  subst; split; reflexivity.
Qed.

Lemma empty_keyword_list_witness :
  exists presence absence,
    KeywordPresenceExactMatch PyRe.search (keyword_kwargs "LF_none" [] 3)
    = Returns presence
    /\ KeywordAbsenceExactMatch PyRe.search (keyword_kwargs "LF_none" [] 3)
       = Returns absence
    /\ call presence (mkDoc " apple pie " []) = Returns ABSTAIN
    /\ call absence (mkDoc " apple pie " []) = Returns 3.
Proof.
  eexists; eexists.
  split; [reflexivity|]. split; [reflexivity|].
  exact (@empty_keyword_list PyRe.search
           (keyword_kwargs "LF_none" [] 3) (keyword_kwargs "LF_none" [] 3)
           _ _ 3 eq_refl eq_refl eq_refl eq_refl eq_refl
           (mkDoc " apple pie " [])).
Defined.

(** ** Fuzzy match against the gazetteer *)

Section FuzzyMatchFacts.

Variable token_sort_ratio : string -> string -> Z.
Variable list_set : list string -> list string.

Let score (e : string) (each_name : string) : Z :=
  token_sort_ratio (str_lower e) (str_lower each_name).

Lemma fuzzy_names_increases (e : string) (names : list string) (l : locals) :
  max_ratio l <= max_ratio (fuzzy_names token_sort_ratio e names l).
Proof.
  revert l; induction names as [|n names IH]; intros l; simpl; [lia|].
  destruct (Z.gtb_spec (token_sort_ratio (str_lower e) (str_lower n))
              (max_ratio l)) as [G|G].
  - specialize (IH (mkLocals (token_sort_ratio (str_lower e) (str_lower n))
                             (Some n))); simpl in IH; lia.
  - apply IH.
Qed.

(** The running maximum reaches a threshold after the inner loop exactly
    when it did before or some name scores that much. *)
Lemma fuzzy_names_reaches (e : string) (names : list string) (l : locals)
    (th : Z) :
  th <= max_ratio (fuzzy_names token_sort_ratio e names l)
  <-> th <= max_ratio l \/ exists n, In n names /\ th <= score e n.
Proof.
  unfold score; revert l; induction names as [|n names IH]; intros l; simpl.
  - split; [auto | intros [H|(n & [] & _)]; exact H].
  - destruct (Z.gtb_spec (token_sort_ratio (str_lower e) (str_lower n))
                (max_ratio l)) as [G|G]; rewrite IH; simpl.
    + split.
      * intros [H|(m & Hin & Hm)]; [right; exists n; auto | right; exists m; auto].
      * intros [H|(m & [<-|Hin] & Hm)];
          [left; lia | left; exact Hm | right; exists m; auto].
    + split.
      * intros [H|(m & Hin & Hm)]; [left; exact H | right; exists m; auto].
      * intros [H|(m & [<-|Hin] & Hm)];
          [left; exact H | left; lia | right; exists m; auto].
Qed.

Lemma fold_max_reaches (xs : list Z) (th : Z) :
  th <= fold_right Z.max 0 xs <-> th <= 0 \/ exists x, In x xs /\ th <= x.
Proof.
  induction xs as [|x xs IH]; simpl.
  - split; [auto | intros [H|(x & [] & _)]; exact H].
  - rewrite Z.max_le_iff, IH; split.
    + intros [H|[H|(y & Hin & Hy)]];
        [right; exists x; auto | left; exact H | right; exists y; auto].
    + intros [H|(y & [<-|Hin] & Hy)];
        [right; left; exact H | left; exact Hy | right; right; exists y; auto].
Qed.

Lemma entity_maximum_reaches (ks : list string) (e : Span) (th : Z) :
  th <= entity_maximum token_sort_ratio ks e
  <-> th <= 0 \/ exists n, In n ks /\ th <= score (span_text e) n.
Proof.
  unfold entity_maximum, score; rewrite fold_max_reaches; split.
  - intros [H|(x & Hin & Hx)]; [left; exact H|right].
    apply in_map_iff in Hin as (n & <- & Hn).
    exists n; split; [apply nodup_In in Hn; exact Hn | exact Hx].
  - intros [H|(n & Hin & Hn)]; [left; exact H|right].
    exists (token_sort_ratio (str_lower (span_text e)) (str_lower n)).
    split; [|exact Hn].
    apply in_map_iff; exists n; split; [reflexivity|].
    apply nodup_In; exact Hin.
Qed.

(** The reference maximum bounds every score of the entity, and it is one
    of them when the gazetteer is not empty and no score is negative. *)
Lemma fold_max_upper (xs : list Z) (x : Z) :
  In x xs -> x <= fold_right Z.max 0 xs.
Proof.
  induction xs as [|y xs IH]; simpl; [intros []|].
  intros [->|H]; [lia | specialize (IH H); lia].
Qed.

Lemma fold_max_attained (xs : list Z) :
  xs <> [] -> (forall x, In x xs -> 0 <= x) ->
  In (fold_right Z.max 0 xs) xs.
Proof.
  induction xs as [|y xs IH]; [congruence|]; intros _ Pos; simpl.
  destruct xs as [|z xs].
  - left; simpl; specialize (Pos y (or_introl eq_refl)); lia.
  - assert (I : In (fold_right Z.max 0 (z :: xs)) (z :: xs)).
    { apply IH; [discriminate | intros x H; apply Pos; right; exact H]. }
    destruct (Z.max_spec y (fold_right Z.max 0 (z :: xs))) as [[_ E]|[_ E]];
      rewrite E; [right; exact I | left; reflexivity].
Qed.

Lemma entity_maximum_is_maximum (ks : list string) (e : Span) :
  (forall n, In n ks -> score (span_text e) n
                        <= entity_maximum token_sort_ratio ks e)
  /\ (ks <> [] ->
      (forall n, In n ks -> 0 <= score (span_text e) n) ->
      exists n, In n ks
                /\ entity_maximum token_sort_ratio ks e
                   = score (span_text e) n).
Proof.
  unfold entity_maximum, score; split.
  - intros n Hin; apply fold_max_upper.
    apply in_map_iff; exists n; split; [reflexivity|].
    apply nodup_In; exact Hin.
  - intros NE Pos.
    assert (I : In (fold_right Z.max 0
                      (map (fun each_name =>
                              token_sort_ratio (str_lower (span_text e))
                                (str_lower each_name))
                           (nodup string_dec ks)))
                   (map (fun each_name =>
                           token_sort_ratio (str_lower (span_text e))
                             (str_lower each_name))
                        (nodup string_dec ks))).
    { apply fold_max_attained.
      - destruct ks as [|k ks]; [congruence|].
        intros E; apply map_eq_nil in E.
        assert (In k (nodup string_dec (k :: ks)))
          by (apply nodup_In; left; reflexivity).
        rewrite E in H; destruct H.
      - intros x Hx; apply in_map_iff in Hx as (n & <- & Hn).
        apply Pos; apply nodup_In in Hn; exact Hn. }
    apply in_map_iff in I as (n & E & Hn).
    exists n; split; [apply nodup_In in Hn; exact Hn | symmetry; exact E].
Qed.

(** C9. With a threshold that is not positive, a document that has an
    entity of the target tag gets the label whatever the gazetteer holds,
    the empty gazetteer included: the running maximum starts at 0 and
    never decreases. *)
Theorem nonpositive_threshold_returns_label
    (kw : kwargs) (lf : LabelingFunction)
    (ReturnLabel FuzzyMatchThreshold : Z) (NERTag : string) :
  NamedEntityFuzzyMatch token_sort_ratio list_set kw = Returns lf ->
  kw kReturnLabel = Some ReturnLabel ->
  kw kFuzzyMatchThreshold = Some FuzzyMatchThreshold ->
  kw kNERTag = Some NERTag ->
  FuzzyMatchThreshold <= 0 ->
  forall doc : Doc,
    (exists e, In e (ents doc) /\ label_ e = NERTag) ->
    call lf doc = Returns ReturnLabel.
Proof.
  intros H Hr Hth Ht Hle doc Hex.
  apply NamedEntityFuzzyMatch_inv in H
    as (n & ks & r & th & t & _ & _ & Hr' & Hth' & Ht' & ->); simpl.
  assert (r = ReturnLabel) by congruence.
  assert (th = FuzzyMatchThreshold) by congruence.
  assert (t = NERTag) by congruence.
  subst r th t; clear Hr Hr' Hth Hth' Ht Ht'.
  unfold CheckForNamedEntityFuzzyMatch.
  assert (G : forall es l,
             0 <= max_ratio l ->
             (exists e, In e es /\ label_ e = NERTag) ->
             fuzzy_ents token_sort_ratio list_set ks ReturnLabel
               FuzzyMatchThreshold NERTag es l = Returns ReturnLabel).
  { induction es as [|e es IH]; intros l Hl (x & Hin & Hx);
      [destruct Hin|]; simpl.
    destruct (String.eqb_spec (label_ e) NERTag) as [E|E].
    - pose proof (fuzzy_names_increases (span_text e) (list_set ks) l) as M.
      destruct (Z.geb_spec
                  (max_ratio (fuzzy_names token_sort_ratio (span_text e)
                                (list_set ks) l))
                  FuzzyMatchThreshold) as [_|B]; [reflexivity | lia].
    - apply IH; [exact Hl|].
      destruct Hin as [<-|Hin]; [contradiction | exists x; auto]. }
  apply G; [simpl; lia | exact Hex].
Qed.

(** What [list(set(l))] guarantees whatever the traversal order: the
    elements are those of [l]. *)
Hypothesis list_set_elements :
  forall (l : list string) (x : string), In x (list_set l) <-> In x l.

Lemma fuzzy_ents_refines (ks : list string) (r th : Z) (t : string)
    (es : list Span) (l : locals) :
  max_ratio l = 0 \/ 0 <= max_ratio l < th ->
  fuzzy_ents token_sort_ratio list_set ks r th t es l
  = fuzzy_reference token_sort_ratio ks r th t es.
Proof.
  revert l; induction es as [|e es IH]; intros l Inv; simpl; [reflexivity|].
  destruct (String.eqb (label_ e) t); simpl; [|apply IH; exact Inv].
  pose proof (fuzzy_names_increases (span_text e) (list_set ks) l) as M.
  pose proof (fuzzy_names_reaches (span_text e) (list_set ks) l th) as R.
  pose proof (entity_maximum_reaches ks e th) as Q.
  destruct (Z.geb_spec
              (max_ratio (fuzzy_names token_sort_ratio (span_text e)
                            (list_set ks) l)) th) as [A|A];
    destruct (Z.leb_spec th (entity_maximum token_sort_ratio ks e)) as [B|B];
    try reflexivity.
  - exfalso.
    assert (C : th <= max_ratio l
                \/ exists n, In n (list_set ks)
                             /\ th <= score (span_text e) n)
      by (apply R; lia).
    assert (~ (th <= 0 \/ exists n, In n ks /\ th <= score (span_text e) n))
      as N by (intros X; apply Q in X; lia).
    apply N; destruct C as [C|(n & Hin & Hn)].
    + left; lia.
    + right; exists n; split; [apply list_set_elements; exact Hin | exact Hn].
  - exfalso.
    assert (C : th <= 0 \/ exists n, In n ks /\ th <= score (span_text e) n)
      by (apply Q; exact B).
    assert (~ (th <= max_ratio l
               \/ exists n, In n (list_set ks)
                            /\ th <= score (span_text e) n))
      as N by (intros X; apply R in X; lia).
    apply N; destruct C as [C|(n & Hin & Hn)].
    + left; lia.
    + right; exists n; split; [apply list_set_elements; exact Hin | exact Hn].
  - apply IH; right; lia.
Qed.

(** C4. The function built by [NamedEntityFuzzyMatch] computes what the
    reference algorithm of the specification computes: entities in
    document order, for an entity of the target tag the maximum score of
    that entity over the distinct gazetteer entries, the label at the
    first entity whose own maximum reaches the threshold, [ABSTAIN] when
    none does.  This holds for every order in which the set of gazetteer
    entries is traversed. *)
Theorem fuzzy_match_refines_reference
    (kw : kwargs) (lf : LabelingFunction) (ListOfKeywords : list string)
    (ReturnLabel FuzzyMatchThreshold : Z) (NERTag : string) :
  NamedEntityFuzzyMatch token_sort_ratio list_set kw = Returns lf ->
  kw kListOfKeywords = Some ListOfKeywords ->
  kw kReturnLabel = Some ReturnLabel ->
  kw kFuzzyMatchThreshold = Some FuzzyMatchThreshold ->
  kw kNERTag = Some NERTag ->
  forall doc : Doc,
    call lf doc
    = fuzzy_reference token_sort_ratio ListOfKeywords ReturnLabel
        FuzzyMatchThreshold NERTag (ents doc).
Proof.
  intros H Hk Hr Hth Ht doc.
  apply NamedEntityFuzzyMatch_inv in H
    as (n & ks & r & th & t & _ & Hk' & Hr' & Hth' & Ht' & ->); simpl.
  assert (ks = ListOfKeywords) by congruence.
  assert (r = ReturnLabel) by congruence.
  assert (th = FuzzyMatchThreshold) by congruence.
  assert (t = NERTag) by congruence.
  subst; unfold CheckForNamedEntityFuzzyMatch.
  apply fuzzy_ents_refines; left; reflexivity.
Qed.

End FuzzyMatchFacts.

Lemma nonpositive_threshold_returns_label_witness :
  exists lf,
    NamedEntityFuzzyMatch exact_ratio (nodup string_dec)
      (fuzzy_kwargs "LF_gaz" [] 1 0 "ORG") = Returns lf
    /\ call lf (mkDoc "Jane joined Acme Corp"
                  [mkSpan "Jane" "PERSON"; mkSpan "Acme Corp" "ORG"])
       = Returns 1.
Proof.
  eexists; split; [reflexivity|].
  apply (@nonpositive_threshold_returns_label exact_ratio (nodup string_dec)
           (fuzzy_kwargs "LF_gaz" [] 1 0 "ORG") _ 1 0 "ORG"
           eq_refl eq_refl eq_refl eq_refl).
  - lia.
  - exists (mkSpan "Acme Corp" "ORG"); split;
      [right; left; reflexivity | reflexivity].
Defined.

Lemma fuzzy_match_refines_reference_witness :
  exists lf,
    NamedEntityFuzzyMatch exact_ratio (nodup string_dec)
      (fuzzy_kwargs "LF_gaz" ["Acme Corp"; "Globex"; "Acme Corp"] 1 90 "ORG")
    = Returns lf
    /\ call lf (mkDoc "Jane joined Initech and ACME CORP"
                  [mkSpan "Jane" "PERSON"; mkSpan "Initech" "ORG";
                   mkSpan "ACME CORP" "ORG"])
       = fuzzy_reference exact_ratio ["Acme Corp"; "Globex"; "Acme Corp"]
           1 90 "ORG"
           [mkSpan "Jane" "PERSON"; mkSpan "Initech" "ORG";
            mkSpan "ACME CORP" "ORG"].
Proof.
  eexists; split; [reflexivity|].
  exact (@fuzzy_match_refines_reference exact_ratio (nodup string_dec)
           (fun l x => nodup_In string_dec l x)
           (fuzzy_kwargs "LF_gaz" ["Acme Corp"; "Globex"; "Acme Corp"] 1 90 "ORG")
           _ ["Acme Corp"; "Globex"; "Acme Corp"] 1 90 "ORG"
           eq_refl eq_refl eq_refl eq_refl eq_refl
           (mkDoc "Jane joined Initech and ACME CORP"
              [mkSpan "Jane" "PERSON"; mkSpan "Initech" "ORG";
               mkSpan "ACME CORP" "ORG"])).
Defined.

(** ** Sentiment thresholds *)

(** Order facts about the IEEE comparison. *)

Ltac float_cases :=
  unfold float_lt, float_gt, float_eq, float_ge,
    SFeqb, SFltb, SFleb, SFcompare;
  repeat match goal with
         | s : bool |- _ => destruct s
         end;
  repeat match goal with
         | |- context [Z.compare ?x ?y] =>
             destruct (Z.compare_spec x y); subst
         | |- context [Pos.compare_cont Eq ?x ?y] =>
             change (Pos.compare_cont Eq x y) with (Pos.compare x y)
         | |- context [Pos.compare ?x ?y] =>
             destruct (Pos.compare_spec x y); subst
         end;
  simpl; intros; try discriminate; try reflexivity; try lia.

Lemma float_eq_not_lt (a b : float) :
  float_eq a b = true -> float_lt a b = false /\ float_lt b a = false.
Proof.
  destruct a as [sa|sa| |sa ma ea], b as [sb|sb| |sb mb eb]; float_cases;
    try (split; try reflexivity; lia).
Qed.

Lemma float_lt_irrefl (a : float) : float_lt a a = false.
Proof.
  destruct a as [s|s| |s m e]; float_cases.
Qed.

Lemma float_lt_trans (a b c : float) :
  float_lt a b = true -> float_lt b c = true -> float_lt a c = true.
Proof.
  destruct a as [sa|sa| |sa ma ea], b as [sb|sb| |sb mb eb],
           c as [sc|sc| |sc mc ec]; float_cases.
Qed.

Lemma float_ge_not_lt (a b : float) :
  float_ge a b = true -> float_lt a b = false.
Proof.
  destruct a as [sa|sa| |sa ma ea], b as [sb|sb| |sb mb eb]; float_cases.
Qed.

Section SentimentFacts.

Variable TextBlob : string -> Sentiment.

(** The four strict inequalities of the closure. *)
Let inside (sl su pl pu : float) (d : Doc) : Prop :=
  float_lt pl (polarity (TextBlob (text d))) = true
  /\ float_lt (polarity (TextBlob (text d))) pu = true
  /\ float_lt sl (subjectivity (TextBlob (text d))) = true
  /\ float_lt (subjectivity (TextBlob (text d))) su = true.

Lemma sentiment_inside (sl su pl pu : float) (r : Z) (d : Doc) :
  inside sl su pl pu d ->
  TextBlobSentimentChecker TextBlob sl su pl pu r d = Returns r.
Proof.
  unfold inside, TextBlobSentimentChecker, float_gt, float_lt; cbv zeta.
  intros (A & B & C & D); rewrite A, B, C, D; reflexivity.
Qed.

Lemma sentiment_not_inside (sl su pl pu : float) (r : Z) (d : Doc) :
  TextBlobSentimentChecker TextBlob sl su pl pu r d = Returns r ->
  r <> ABSTAIN ->
  inside sl su pl pu d.
Proof.
  unfold inside, TextBlobSentimentChecker, float_gt, float_lt; cbv zeta.
  intros E NE.
  destruct (SFltb (polarity (TextBlob (text d))) pu);
    destruct (SFltb pl (polarity (TextBlob (text d))));
    destruct (SFltb (subjectivity (TextBlob (text d))) su);
    destruct (SFltb sl (subjectivity (TextBlob (text d))));
    simpl in E; try (exfalso; apply NE; congruence).
  repeat split; reflexivity.
Qed.

Lemma sentiment_outside (sl su pl pu : float) (r : Z) (d : Doc) :
  ~ inside sl su pl pu d ->
  TextBlobSentimentChecker TextBlob sl su pl pu r d = Returns ABSTAIN.
Proof.
  unfold inside, TextBlobSentimentChecker, float_gt, float_lt; cbv zeta.
  intros N.
  destruct (SFltb (polarity (TextBlob (text d))) pu);
    destruct (SFltb pl (polarity (TextBlob (text d))));
    destruct (SFltb (subjectivity (TextBlob (text d))) su);
    destruct (SFltb sl (subjectivity (TextBlob (text d))));
    simpl; try reflexivity.
  exfalso; apply N; repeat split; reflexivity.
Qed.

(** C5, as the code has it.  Under a label other than [ABSTAIN] the
    function returns the label exactly when the four strict
    inequalities hold; under any label it returns the label when they
    hold and [ABSTAIN] when they do not.  A score equal to one of its
    own thresholds gives [ABSTAIN], and so does every document when a
    lower threshold is at least its upper threshold. *)
Theorem sentiment_strict_bounds
    (kw : kwargs) (lf : LabelingFunction)
    (SubjectivityLower SubjectivityUpper PolarityLower PolarityUpper : float)
    (ReturnLabel : Z) :
  SentimentChecker TextBlob kw = Returns lf ->
  kw kSubjectivityLower = Some SubjectivityLower ->
  kw kSubjectivityUpper = Some SubjectivityUpper ->
  kw kPolarityLower = Some PolarityLower ->
  kw kPolarityUpper = Some PolarityUpper ->
  kw kReturnLabel = Some ReturnLabel ->
  forall doc : Doc,
    let p := polarity (TextBlob (text doc)) in
    let s := subjectivity (TextBlob (text doc)) in
    let strictly_inside :=
      float_lt PolarityLower p = true /\ float_lt p PolarityUpper = true
      /\ float_lt SubjectivityLower s = true
      /\ float_lt s SubjectivityUpper = true in
    (strictly_inside -> call lf doc = Returns ReturnLabel)
    /\ (~ strictly_inside -> call lf doc = Returns ABSTAIN)
    /\ (ReturnLabel <> ABSTAIN ->
        (call lf doc = Returns ReturnLabel <-> strictly_inside))
    /\ (float_eq p PolarityLower = true \/ float_eq p PolarityUpper = true
        \/ float_eq s SubjectivityLower = true
        \/ float_eq s SubjectivityUpper = true ->
        call lf doc = Returns ABSTAIN)
    /\ (float_ge PolarityLower PolarityUpper = true
        \/ float_ge SubjectivityLower SubjectivityUpper = true ->
        call lf doc = Returns ABSTAIN).
Proof.
  intros H Hsl Hsu Hpl Hpu Hr doc p s strictly_inside.
  apply SentimentChecker_inv in H
    as (n & sl & su & pl & pu & r & _ & Hsl' & Hsu' & Hpl' & Hpu' & Hr' & ->).
  assert (sl = SubjectivityLower) by congruence.
  assert (su = SubjectivityUpper) by congruence.
  assert (pl = PolarityLower) by congruence.
  assert (pu = PolarityUpper) by congruence.
  assert (r = ReturnLabel) by congruence.
  subst sl su pl pu r; simpl.
  change strictly_inside
    with (inside SubjectivityLower SubjectivityUpper PolarityLower
            PolarityUpper doc).
  assert (In_ := @sentiment_inside SubjectivityLower SubjectivityUpper
                   PolarityLower PolarityUpper ReturnLabel doc).
  assert (Out := @sentiment_outside SubjectivityLower SubjectivityUpper
                   PolarityLower PolarityUpper ReturnLabel doc).
  split; [exact In_|]. split; [exact Out|].
  split; [|split].
  - intros NE; split; [|exact In_].
    intros E; exact (sentiment_not_inside _ _ _ _ _ E NE).
  - intros Eq_; apply Out; unfold inside; fold p s; intros (A & B & C & D).
    destruct Eq_ as [E|[E|[E|E]]];
      apply float_eq_not_lt in E as [E1 E2]; congruence.
  - intros Ge; apply Out; unfold inside; fold p s; intros (A & B & C & D).
    destruct Ge as [G|G]; apply float_ge_not_lt in G.
    + rewrite (float_lt_trans _ _ _ A B) in G; discriminate.
    + rewrite (float_lt_trans _ _ _ C D) in G; discriminate.
Qed.

End SentimentFacts.

Lemma sentiment_strict_bounds_witness :
  exists lf,
    SentimentChecker neutral_scorer (sentiment_kwargs "LF_mild" f0 f1 f0 f1 1)
    = Returns lf
    /\ call lf (mkDoc "" []) = Returns ABSTAIN.
Proof.
  eexists; split; [reflexivity|].
  exact (proj1 (proj2 (proj2 (proj2
    (@sentiment_strict_bounds neutral_scorer
       (sentiment_kwargs "LF_mild" f0 f1 f0 f1 1) _ f0 f1 f0 f1 1
       eq_refl eq_refl eq_refl eq_refl eq_refl eq_refl (mkDoc "" [])))))
    (or_introl eq_refl)).
Defined.

(** C5 as it is worded fails for the label -1: the function then returns
    the configured label on a document whose polarity 0.0 lies outside the
    thresholds 0.5 and 1.0. *)
Lemma sentiment_label_minus_one_counterexample :
  exists lf,
    SentimentChecker neutral_scorer
      (sentiment_kwargs "LF_mild" f0 f1 f_half f1 (-1)) = Returns lf
    /\ ~ (call lf (mkDoc "" []) = Returns (-1)
          <-> (float_lt f_half (polarity (neutral_scorer "")) = true
               /\ float_lt (polarity (neutral_scorer "")) f1 = true
               /\ float_lt f0 (subjectivity (neutral_scorer "")) = true
               /\ float_lt (subjectivity (neutral_scorer "")) f1 = true)).
Proof.
  eexists; split; [reflexivity|].
  intros [H _].
  destruct (H eq_refl) as [A _]; discriminate A.
Qed.

(** ** Strings *)

Lemma str_app_nil_r (s : string) : s ++ "" = s.
Proof. induction s as [|c s IH]; simpl; [reflexivity | rewrite IH; reflexivity]. Qed.

Lemma str_app_assoc (a b c : string) : (a ++ b) ++ c = a ++ (b ++ c).
Proof. induction a as [|x a IH]; simpl; [reflexivity | rewrite IH; reflexivity]. Qed.

Lemma str_app_eq_nil (a b : string) : a ++ b = "" -> a = "" /\ b = "".
Proof. destruct a; simpl; intros H; [auto | discriminate]. Qed.

Lemma str_app_eq_cons (a b s : string) (c : ascii) :
  a ++ b = String c s ->
  (a = "" /\ b = String c s) \/ (exists a', a = String c a' /\ s = a' ++ b).
Proof.
  destruct a as [|x a]; simpl; intros H; [left; auto|].
  injection H as -> <-; right; exists a; auto.
Qed.

Lemma str_length_app (a b : string) :
  String.length (a ++ b) = (String.length a + String.length b)%nat.
Proof. induction a as [|x a IH]; simpl; [reflexivity | rewrite IH; reflexivity]. Qed.

(** ** The matcher decides the language of a pattern *)

Module PyReFacts.
Import PyRe.

Lemma nullable_matches (r : regex) : nullable r = true <-> matches r "".
Proof.
  split.
  - induction r; simpl; intros H; try discriminate.
    + constructor.
    + apply andb_true_iff in H as [H1 H2].
      change "" with ("" ++ ""); constructor; auto.
    + apply orb_true_iff in H as [H|H]; [apply MAltL | apply MAltR]; auto.
    + constructor.
    + change "" with ("" ++ ""); constructor; [auto | constructor].
    + constructor.
    + constructor; auto.
  - intros H; remember "" as s eqn:E.
    induction H; simpl; try discriminate; try reflexivity.
    + apply str_app_eq_nil in E as [-> ->]; rewrite IHmatches1, IHmatches2; auto.
    + rewrite IHmatches; auto.
    + rewrite IHmatches; auto; apply orb_true_r.
    + apply str_app_eq_nil in E as [-> ->]; auto.
    + auto.
Qed.

Lemma deriv_sound (r : regex) (c : ascii) (s : string) :
  matches (deriv c r) s -> matches r (String c s).
Proof.
  revert s; induction r; simpl; intros s H.
  - inversion H.
  - inversion H.
  - destruct (Ascii.eqb_spec c c0); inversion H; subst; constructor.
  - destruct (Ascii.eqb_spec c newline); inversion H; subst; constructor; auto.
  - destruct (in_set negate items c) eqn:E; inversion H; subst; constructor; auto.
  - destruct (nullable r1) eqn:N.
    + inversion H; subst.
      * match goal with X : matches (Cat _ _) _ |- _ => inversion X; subst end.
        change (String c (s1 ++ s2)) with (String c s1 ++ s2).
        constructor; auto.
      * change (String c s) with ("" ++ String c s).
        constructor; [apply nullable_matches; exact N | auto].
    + inversion H; subst.
      change (String c (s1 ++ s2)) with (String c s1 ++ s2).
      constructor; auto.
  - inversion H; subst; [apply MAltL | apply MAltR]; auto.
  - inversion H; subst.
    change (String c (s1 ++ s2)) with (String c s1 ++ s2).
    constructor; auto.
  - inversion H; subst.
    change (String c (s1 ++ s2)) with (String c s1 ++ s2).
    constructor; auto.
  - apply MOptS; auto.
  - constructor; auto.
Qed.

Lemma deriv_complete (r : regex) (c : ascii) (s : string) :
  matches r (String c s) -> matches (deriv c r) s.
Proof.
  intros H; remember (String c s) as w eqn:E; revert c s E.
  induction H; intros a w E; simpl; try discriminate.
  - injection E as -> <-; rewrite Ascii.eqb_refl; constructor.
  - injection E as -> <-.
    destruct (Ascii.eqb_spec a newline); [contradiction | constructor].
  - injection E as -> <-; rewrite H; constructor.
  - apply str_app_eq_cons in E as [[-> ->]|(s1' & -> & ->)].
    + apply nullable_matches in H as ->. apply MAltR; auto.
    + destruct (nullable r1); [apply MAltL|]; constructor; auto.
  - apply MAltL; auto.
  - apply MAltR; auto.
  - apply str_app_eq_cons in E as [[-> ->]|(s1' & -> & ->)].
    + apply IHmatches2; reflexivity.
    + constructor; auto.
  - apply str_app_eq_cons in E as [[-> ->]|(s1' & -> & ->)].
    + apply (IHmatches2 a w eq_refl).
    + constructor; auto.
  - auto.
  - auto.
Qed.

Lemma match_prefix_correct (r : regex) (s : string) :
  match_prefix r s = true <-> exists p q, s = p ++ q /\ matches r p.
Proof.
  revert r; induction s as [|c s IH]; intros r; simpl.
  - rewrite orb_false_r, nullable_matches; split.
    + intros H; exists "", ""; auto.
    + intros (p & q & E & H); symmetry in E.
      apply str_app_eq_nil in E as [-> _]; exact H.
  - rewrite orb_true_iff, nullable_matches, IH; split.
    + intros [H|(p & q & -> & H)].
      * exists "", (String c s); auto.
      * exists (String c p), q; split; [reflexivity | apply deriv_sound; exact H].
    + intros (p & q & E & H); destruct p as [|x p]; [left; exact H|].
      simpl in E; injection E as <- ->.
      right; exists p, q; split; [reflexivity | apply deriv_complete; exact H].
Qed.

Lemma search_from_correct (r : regex) (s : string) :
  search_from r s = true
  <-> exists a p q, s = a ++ p ++ q /\ matches r p.
Proof.
  induction s as [|c s IH]; simpl.
  - rewrite !orb_false_r, nullable_matches; split.
    + intros H; exists "", "", ""; auto.
    + intros (a & p & q & E & H); symmetry in E.
      apply str_app_eq_nil in E as [-> E].
      apply str_app_eq_nil in E as [-> _]; exact H.
  - rewrite orb_true_iff, IH.
    change (nullable r || match_prefix (deriv c r) s)
      with (match_prefix r (String c s)).
    rewrite match_prefix_correct; split.
    + intros [(p & q & E & H)|(a & p & q & -> & H)].
      * exists "", p, q; auto.
      * exists (String c a), p, q; auto.
    + intros (a & p & q & E & H); destruct a as [|x a].
      * left; exists p, q; auto.
      * simpl in E; injection E as <- ->; right; exists a, p, q; auto.
Qed.

End PyReFacts.

(** ** The pattern of a plain keyword *)

Module KeywordPattern.
Import PyRe.

Lemma run_app (s1 s2 : string) (st : pstate) :
  run (s1 ++ s2) st
  = match run s1 st with
    | inl e => inl e
    | inr st' => run s2 st'
    end.
Proof.
  revert st; induction s1 as [|c s1 IH]; intros st; simpl; [reflexivity|].
  destruct (step st c); [reflexivity | apply IH].
Qed.

Lemma step_plain (st : pstate) (c : ascii) :
  special c = false -> md st = Normal ->
  step st c = inr (push_atom (Lit c) st).
Proof.
  intros H N; unfold step; rewrite N.
  unfold special in H; simpl in H.
  repeat match type of H with
         | (_ || _)%bool = false => apply orb_false_elim in H as [? H]
         end.
  unfold step_normal, repeat_sign, special; simpl.
  repeat match goal with
         | E : Ascii.eqb c _ = false |- _ => rewrite E; clear E
         end.
  reflexivity.
Qed.

Lemma run_plain (keyword : string) :
  plain keyword = true ->
  forall st, md st = Normal ->
    run keyword st
    = inr (mkPState (parents st)
             (mkFrame (branches (top st))
                (lits_rev keyword (atoms (top st))))
             Normal).
Proof.
  induction keyword as [|c k IH]; simpl; intros P st N.
  - destruct st as [ps [bs ats] m]; simpl in *; subst; reflexivity.
  - apply andb_true_iff in P as [Pc Pk].
    apply negb_true_iff in Pc.
    rewrite (@step_plain st c Pc N).
    rewrite (IH Pk); [reflexivity | reflexivity].
Qed.

Lemma seq_of_lits (keyword : string) (acc : list regex) (k : regex) :
  fold_right Cat k (rev (lits_rev keyword acc))
  = fold_right Cat (lits keyword k) (rev acc).
Proof.
  revert acc; induction keyword as [|c kw IH]; intros acc; simpl;
    [reflexivity|].
  rewrite IH; simpl; rewrite fold_right_app; reflexivity.
Qed.

(** A plain keyword compiles to the boundary group, the literals of the
    keyword and the boundary group again. *)
Lemma compile_keyword_pattern (keyword : string) :
  plain keyword = true ->
  compile (keyword_pattern keyword)
  = inr (Cat boundary_group (lits keyword (Cat boundary_group Eps))).
Proof.
  intros P; unfold compile, keyword_pattern.
  rewrite run_app.
  change (run "([^a-z0-9])" initial)
    with (@inr re_failure pstate
            (mkPState [] (mkFrame [] [boundary_group]) Normal)).
  cbv iota; rewrite run_app, (@run_plain keyword P); [|reflexivity].
  simpl.
  unfold finish, close_frame, seq_of; simpl.
  rewrite fold_right_app; simpl.
  rewrite seq_of_lits; reflexivity.
Qed.

Lemma matches_lits (keyword : string) (k : regex) (s : string) :
  matches (lits keyword k) s
  <-> exists s', s = keyword ++ s' /\ matches k s'.
Proof.
  revert s; induction keyword as [|c kw IH]; intros s; simpl.
  - split; [intros H; exists s; auto | intros (s' & -> & H); exact H].
  - split.
    + intros H; inversion H as [| | | |r1 r2 s1 s2 H1 H2| | | | | | | |]; subst.
      inversion H1; subst.
      apply IH in H2 as (s' & -> & H2); exists s'; auto.
    + intros (s' & -> & H).
      change (String c (kw ++ s')) with (String c "" ++ (kw ++ s')).
      constructor; [constructor | apply IH; exists s'; auto].
Qed.

Lemma matches_boundary_group (s : string) :
  matches boundary_group s
  <-> exists c, s = String c "" /\ boundary c = true.
Proof.
  unfold boundary_group, boundary; split.
  - intros H; inversion H as [| | | | | | | | | | | |r s0 H1]; subst.
    inversion H1 as [| | | |r1 r2 s1 s2 H2 H3| | | | | | | |]; subst.
    inversion H2; subst; inversion H3; subst.
    eexists; split; [reflexivity | assumption].
  - intros (c & -> & H).
    constructor.
    change (String c "") with (String c "" ++ "").
    constructor; constructor; exact H.
Qed.

Lemma matches_keyword_regex (keyword : string) (p : string) :
  matches (Cat boundary_group (lits keyword (Cat boundary_group Eps))) p
  <-> exists c1 c2,
        p = String c1 (keyword ++ String c2 "")
        /\ boundary c1 = true /\ boundary c2 = true.
Proof.
  split.
  - intros H; inversion H as [| | | |r1 r2 s1 s2 H1 H2| | | | | | | |]; subst.
    apply matches_boundary_group in H1 as (c1 & -> & B1).
    apply matches_lits in H2 as (s' & -> & H2).
    inversion H2 as [| | | |r1 r2 s1 s3 H3 H4| | | | | | | |]; subst.
    apply matches_boundary_group in H3 as (c2 & -> & B2).
    inversion H4; subst.
    exists c1, c2; auto.
  - intros (c1 & c2 & -> & B1 & B2).
    change (String c1 (keyword ++ String c2 ""))
      with (String c1 "" ++ (keyword ++ String c2 "")).
    constructor; [apply matches_boundary_group; exists c1; auto|].
    apply matches_lits; exists (String c2 ""); split; [reflexivity|].
    change (String c2 "") with (String c2 "" ++ "").
    constructor; [apply matches_boundary_group; exists c2; auto | constructor].
Qed.

(** On the pattern of a plain keyword [re.search] always answers, and it
    finds a match exactly when the keyword has a bounded occurrence. *)
Lemma search_keyword_pattern (keyword s : string) :
  plain keyword = true ->
  (search (keyword_pattern keyword) s = Found /\ bounded_occurrence keyword s)
  \/ (search (keyword_pattern keyword) s = NotFound
      /\ ~ bounded_occurrence keyword s).
Proof.
  intros P; unfold search; rewrite (@compile_keyword_pattern keyword P).
  pose proof (PyReFacts.search_from_correct
                (Cat boundary_group (lits keyword (Cat boundary_group Eps)))
                s) as [S1 S2].
  destruct (search_from _ s).
  - left; split; [reflexivity|].
    destruct (S1 eq_refl) as (a & p & q & -> & M).
    apply matches_keyword_regex in M as (c1 & c2 & -> & B1 & B2).
    exists a, q, c1, c2; split; [|auto].
    simpl; rewrite str_app_assoc; reflexivity.
  - right; split; [reflexivity|].
    intros (a & q & c1 & c2 & -> & B1 & B2).
    assert (false = true); [|discriminate].
    apply S2; exists a, (String c1 (keyword ++ String c2 "")), q; split.
    + simpl; rewrite str_app_assoc; reflexivity.
    + apply matches_keyword_regex; exists c1, c2; auto.
Qed.

End KeywordPattern.

(** ** Keyword presence decides bounded occurrence *)

Lemma keyword_scan_plain (ks : list string) (r : Z) (d : Doc) :
  Forall (fun k => plain k = true) ks ->
  (CheckForKeywordExactMatch PyRe.search ks r d = Returns r
   /\ exists k, In k ks /\ bounded_occurrence k (str_lower (text d)))
  \/ (CheckForKeywordExactMatch PyRe.search ks r d = Returns ABSTAIN
      /\ ~ exists k, In k ks /\ bounded_occurrence k (str_lower (text d))).
Proof.
  induction 1 as [|k ks P _ IH].
  - right; split; [reflexivity | intros (k & [] & _)].
  - rewrite keyword_presence_cons.
    destruct (@KeywordPattern.search_keyword_pattern k (str_lower (text d)) P)
      as [[S B]|[S B]]; rewrite S.
    + left; split; [reflexivity | exists k; split; [left; reflexivity | exact B]].
    + destruct IH as [[E (k' & Hin & B')]|[E N]].
      * left; split; [exact E | exists k'; split; [right; exact Hin | exact B']].
      * right; split; [exact E|].
        intros (k' & [<-|Hin] & B'); [exact (B B') | apply N; exists k'; auto].
Qed.

Lemma keyword_scan_first_match (before : list string) (k : string)
    (after : list string) (r : Z) (d : Doc) :
  Forall (fun k => plain k = true) before ->
  (forall k', In k' before -> ~ bounded_occurrence k' (str_lower (text d))) ->
  plain k = true ->
  bounded_occurrence k (str_lower (text d)) ->
  CheckForKeywordExactMatch PyRe.search (before ++ k :: after)%list r d
  = Returns r.
Proof.
  intros Pb Nb Pk Bk; induction Pb as [|k0 ks P0 _ IH]; simpl app;
    rewrite keyword_presence_cons.
  - destruct (@KeywordPattern.search_keyword_pattern k (str_lower (text d)) Pk)
      as [[S _]|[_ N]]; [rewrite S; reflexivity | contradiction].
  - destruct (@KeywordPattern.search_keyword_pattern k0 (str_lower (text d)) P0)
      as [[_ B]|[S _]].
    + exfalso; apply (Nb k0); [left; reflexivity | exact B].
    + rewrite S; apply IH; intros k' Hin; apply Nb; right; exact Hin.
Qed.

(** C3, as the code has it.  For a keyword list whose keywords hold no
    character with a meaning of its own in a pattern, the presence function
    returns the label when some keyword of the list occurs in the
    lowercased text between two characters outside [[a-z0-9]] and
    [ABSTAIN] when none does; under a label other than [ABSTAIN] it
    returns the label exactly in the first case.  The keywords are tried
    in list order and the first one that occurs so settles the result,
    whatever follows it in the list. *)
Theorem keyword_presence_bounded_occurrence
    (kw : kwargs) (lf : LabelingFunction)
    (ListOfKeywords : list string) (ReturnLabel : Z) :
  KeywordPresenceExactMatch PyRe.search kw = Returns lf ->
  kw kListOfKeywords = Some ListOfKeywords ->
  kw kReturnLabel = Some ReturnLabel ->
  forall doc : Doc,
    (Forall (fun k => plain k = true) ListOfKeywords ->
     let some_keyword_occurs :=
       exists k, In k ListOfKeywords
                 /\ bounded_occurrence k (str_lower (text doc)) in
     (some_keyword_occurs -> call lf doc = Returns ReturnLabel)
     /\ (~ some_keyword_occurs -> call lf doc = Returns ABSTAIN)
     /\ (ReturnLabel <> ABSTAIN ->
         (call lf doc = Returns ReturnLabel <-> some_keyword_occurs)))
    /\ (forall (before : list string) (k : string) (after : list string),
           ListOfKeywords = (before ++ k :: after)%list ->
           Forall (fun k => plain k = true) before ->
           (forall k', In k' before ->
                       ~ bounded_occurrence k' (str_lower (text doc))) ->
           plain k = true ->
           bounded_occurrence k (str_lower (text doc)) ->
           call lf doc = Returns ReturnLabel).
Proof.
  intros H Hk Hr doc.
  apply KeywordPresenceExactMatch_inv in H as (n & ks & r & _ & Hk' & Hr' & ->).
  assert (ks = ListOfKeywords) by congruence.
  assert (r = ReturnLabel) by congruence.
  subst ks r; simpl; split.
  - intros P.
    destruct (keyword_scan_plain ReturnLabel doc P) as [[E B]|[E N]].
    + split; [intros _; exact E|].
      split; [intros N; contradiction|].
      intros _; split; [intros _; exact B | intros _; exact E].
    + split; [intros B; contradiction|].
      split; [intros _; exact E|].
      intros NE; split; [|intros B; contradiction].
      intros E'; rewrite E in E'; exfalso; apply NE; congruence.
  - intros before k after -> Pb Nb Pk Bk.
    apply keyword_scan_first_match; assumption.
Qed.

Lemma keyword_presence_bounded_occurrence_witness :
  exists lf,
    KeywordPresenceExactMatch PyRe.search
      (keyword_kwargs "LF_fraud" ["scam"; "fraud"] 2) = Returns lf
    /\ call lf (mkDoc "We detected FRAUD here" []) = Returns 2.
Proof.
  eexists; split; [reflexivity|].
  destruct (@keyword_presence_bounded_occurrence
              (keyword_kwargs "LF_fraud" ["scam"; "fraud"] 2) _
              ["scam"; "fraud"] 2
              eq_refl eq_refl eq_refl (mkDoc "We detected FRAUD here" []))
    as [T _].
  assert (P : Forall (fun k => plain k = true) ["scam"; "fraud"])
    by (repeat constructor).
  destruct (T P) as [A _]; apply A.
  exists "fraud"; split; [right; left; reflexivity|].
  exists "we detected", "here", " "%char, " "%char.
  split; [reflexivity | split; reflexivity].
Defined.

Ltac no_occurrence E b :=
  repeat (destruct b as [|? b]; simpl in E;
          [discriminate E | injection E as _ E]);
  destruct b; discriminate E.

(** C3 as it is worded fails in two ways.  A keyword is read as a pattern,
    not as a literal string: with the keyword [a.c] the function returns
    the label 1 on the text [ abc ], where [a.c] does not occur.  And
    under the label -1 the function returns the configured label on a text
    without any bounded occurrence of the keyword. *)
Lemma keyword_presence_counterexample :
  (exists lf,
      KeywordPresenceExactMatch PyRe.search (keyword_kwargs "LF_abc" ["a.c"] 1)
      = Returns lf
      /\ call lf (mkDoc " abc " []) = Returns 1
      /\ ~ exists k, In k ["a.c"]
                     /\ bounded_occurrence k (str_lower " abc "))
  /\ (exists lf,
         KeywordPresenceExactMatch PyRe.search
           (keyword_kwargs "LF_fraud" ["fraud"] (-1)) = Returns lf
         /\ call lf (mkDoc "fraudulent activity" []) = Returns (-1)
         /\ ~ exists k, In k ["fraud"]
                        /\ bounded_occurrence k
                             (str_lower "fraudulent activity")).
Proof.
  split; eexists; (split; [reflexivity|]);
    (split; [vm_compute; reflexivity|]).
  - intros (k & [<-|[]] & (b & a & c1 & c2 & E & _)).
    simpl in E; no_occurrence E b.
  - intros (k & [<-|[]] & B).
    destruct (@KeywordPattern.search_keyword_pattern "fraud"
                (str_lower "fraudulent activity") eq_refl)
      as [[S _]|[_ N]]; [vm_compute in S; discriminate S | exact (N B)].
Qed.

(** ** Keywords at the edges of the text *)

Lemma bounded_occurrence_inside (k s : string) :
  bounded_occurrence k s ->
  exists i, occurs_at k s i
            /\ i <> 0%nat
            /\ (i + String.length k)%nat <> String.length s.
Proof.
  intros (b & a & c1 & c2 & -> & _).
  exists (S (String.length b)); split; [|split].
  - exists (b ++ String c1 ""), (String c2 a); split.
    + rewrite str_app_assoc; reflexivity.
    + rewrite str_length_app; simpl; lia.
  - discriminate.
  - rewrite str_length_app; simpl; rewrite str_length_app; simpl; lia.
Qed.

(** C6, as the code has it.  For a keyword list whose keywords hold no
    character with a meaning of its own in a pattern, an occurrence of a
    keyword that touches the start or the end of the text is not matched:
    when every occurrence of every keyword of the list starts at the first
    character of the lowercased text or ends at its last character, the
    presence function abstains.  On [apple pie] with the keyword [apple]
    it returns [ABSTAIN]; on the same text with a space before and after
    it returns the label, whatever the label is. *)
Theorem keyword_at_text_edge_not_matched :
  (forall (kw : kwargs) (lf : LabelingFunction) (ListOfKeywords : list string),
      KeywordPresenceExactMatch PyRe.search kw = Returns lf ->
      kw kListOfKeywords = Some ListOfKeywords ->
      Forall (fun k => plain k = true) ListOfKeywords ->
      forall doc : Doc,
        (forall k i,
            In k ListOfKeywords ->
            occurs_at k (str_lower (text doc)) i ->
            i = 0%nat
            \/ (i + String.length k)%nat
               = String.length (str_lower (text doc))) ->
        call lf doc = Returns ABSTAIN)
  /\ (forall (LabelingFunctionName : string) (ReturnLabel : Z)
             (ents : list Span),
         exists lf,
           KeywordPresenceExactMatch PyRe.search
             (keyword_kwargs LabelingFunctionName ["apple"] ReturnLabel)
           = Returns lf
           /\ call lf (mkDoc "apple pie" ents) = Returns ABSTAIN
           /\ call lf (mkDoc " apple pie " ents) = Returns ReturnLabel).
Proof.
  split.
  - intros kw lf ks H Hk P doc Edge.
    apply KeywordPresenceExactMatch_inv in H as (n & ks' & r & _ & Hk' & _ & ->).
    assert (ks' = ks) by congruence; subst ks'; simpl.
    destruct (keyword_scan_plain r doc P) as [[_ (k & Hin & B)]|[E _]];
      [|exact E].
    exfalso.
    apply bounded_occurrence_inside in B as (i & O & N0 & N1).
    destruct (Edge k i Hin O); contradiction.
  - intros n r es; eexists; split; [reflexivity|].
    split; vm_compute; reflexivity.
Qed.

(** C6 as it is worded, for every keyword list, fails: the keyword [a|b]
    is read as a pattern with two alternatives, and on the text [a|b!],
    where the keyword occurs at the very start and nowhere else, the
    function returns the label 1. *)
Lemma keyword_at_text_edge_counterexample :
  exists lf,
    KeywordPresenceExactMatch PyRe.search (keyword_kwargs "LF_ab" ["a|b"] 1)
    = Returns lf
    /\ (forall k i,
           In k ["a|b"] ->
           occurs_at k (str_lower (text (mkDoc "a|b!" []))) i ->
           i = 0%nat
           \/ (i + String.length k)%nat
              = String.length (str_lower (text (mkDoc "a|b!" []))))
    /\ call lf (mkDoc "a|b!" []) = Returns 1
    /\ call lf (mkDoc "a|b!" []) <> Returns ABSTAIN.
Proof.
  eexists; split; [reflexivity|].
  split; [|split; [vm_compute; reflexivity | vm_compute; discriminate]].
  intros k i [<-|[]] (b & a & E & L).
  destruct b as [|x b]; [left; symmetry; exact L|].
  exfalso; simpl in E.
  injection E as _ E.
  destruct b as [|y b]; simpl in E; [discriminate E|].
  injection E as _ E.
  destruct b as [|z b]; simpl in E; [discriminate E|].
  injection E as _ E.
  destruct b as [|w b]; simpl in E; [discriminate E|].
  injection E as _ E.
  destruct b; discriminate E.
Qed.

Lemma keyword_at_text_edge_not_matched_witness :
  exists lf,
    KeywordPresenceExactMatch PyRe.search (keyword_kwargs "LF_pie" ["pie"] 4)
    = Returns lf
    /\ call lf (mkDoc "Pie" []) = Returns ABSTAIN.
Proof.
  eexists; split; [reflexivity|].
  assert (P : Forall (fun k => plain k = true) ["pie"])
    by (repeat constructor).
  apply (proj1 keyword_at_text_edge_not_matched
           (keyword_kwargs "LF_pie" ["pie"] 4) _ ["pie"]
           eq_refl eq_refl P (mkDoc "Pie" [])).
  intros k i [<-|[]] (b & a & E & L).
  destruct b as [|x b]; [left; symmetry; exact L|].
  exfalso; simpl in E.
  injection E as _ E.
  destruct b as [|y b]; simpl in E; [discriminate E|].
  injection E as _ E.
  destruct b as [|z b]; simpl in E; [discriminate E|].
  injection E as _ E.
  destruct b; discriminate E.
Defined.

(* ================================================================== *)
(** * Further properties of the builders *)

(** ** Names and keys *)

(** X1. The function a builder produces is registered under the
    [LabelingFunctionName] of the configuration and displays the same
    name: the [name] given to the decorator and the [__name__] that the
    builder assigns afterwards are both that name, for each of the six
    builders. *)
Theorem produced_function_carries_config_name
    (TextBlob : string -> Sentiment)
    (re_search : string -> string -> search_result)
    (token_sort_ratio : string -> string -> Z)
    (list_set : list string -> list string)
    (b : builder) (kw : kwargs) (lf : LabelingFunction)
    (LabelingFunctionName : string) :
  build TextBlob re_search token_sort_ratio list_set b kw = Returns lf ->
  kw kLabelingFunctionName = Some LabelingFunctionName ->
  name lf = LabelingFunctionName
  /\ dunder_name lf = Some LabelingFunctionName.
Proof.
  intros H Hn; destruct b; simpl in H.
  - apply NERTagPresence_inv in H as (n & t & r & Hn' & _ & _ & ->).
    simpl; split; congruence.
  - apply NERTagAbsence_inv in H as (n & t & r & Hn' & _ & _ & ->).
    simpl; split; congruence.
  - apply SentimentChecker_inv in H
      as (n & sl & su & pl & pu & r & Hn' & _ & _ & _ & _ & _ & ->).
    simpl; split; congruence.
  - apply KeywordPresenceExactMatch_inv in H as (n & ks & r & Hn' & _ & _ & ->).
    simpl; split; congruence.
  - apply NamedEntityFuzzyMatch_inv in H
      as (n & ks & r & th & t & Hn' & _ & _ & _ & _ & ->).
    simpl; split; congruence.
  - apply KeywordAbsenceExactMatch_inv in H as (n & ks & r & Hn' & _ & _ & ->).
    simpl; split; congruence.
Qed.

Lemma produced_function_carries_config_name_witness :
  exists lf,
    SentimentChecker neutral_scorer (sentiment_kwargs "LF_mild" f0 f1 f0 f1 1)
    = Returns lf
    /\ name lf = "LF_mild" /\ dunder_name lf = Some "LF_mild".
Proof.
  eexists; split; [reflexivity|].
  exact (@produced_function_carries_config_name neutral_scorer PyRe.search
           exact_ratio (nodup string_dec) B_SentimentChecker
           (sentiment_kwargs "LF_mild" f0 f1 f0 f1 1) _ "LF_mild"
           eq_refl eq_refl).
Defined.

(** X2. A builder looks at the keys it requires and at nothing else: two
    configurations that agree on those keys give the same outcome, be it
    the same function or the same [KeyError]; keys a builder does not
    read are ignored without complaint. *)
Theorem builder_reads_only_required_keys
    (TextBlob : string -> Sentiment)
    (re_search : string -> string -> search_result)
    (token_sort_ratio : string -> string -> Z)
    (list_set : list string -> list string)
    (b : builder) (kw kw' : kwargs) :
  (forall k, In k (required b) -> kw k = kw' k) ->
  build TextBlob re_search token_sort_ratio list_set b kw
  = build TextBlob re_search token_sort_ratio list_set b kw'.
Proof.
  intros H; destruct b; simpl in H; simpl;
    unfold NERTagPresence, NERTagAbsence, SentimentChecker,
      KeywordPresenceExactMatch, KeywordAbsenceExactMatch,
      NamedEntityFuzzyMatch, getitem;
    repeat match goal with
           | |- context [kw ?k] => rewrite (H k) by (simpl; tauto)
           end;
    reflexivity.
Qed.

Lemma builder_reads_only_required_keys_witness :
  NERTagPresence (fuzzy_kwargs "LF_org" ["acme corp"] 1 90 "ORG")
  = NERTagPresence (ner_kwargs "LF_org" "ORG" 1).
Proof.
  apply (@builder_reads_only_required_keys neutral_scorer PyRe.search
           exact_ratio (nodup string_dec) B_NERTagPresence
           (fuzzy_kwargs "LF_org" ["acme corp"] 1 90 "ORG")
           (ner_kwargs "LF_org" "ORG" 1)).
  intros k [<-|[<-|[<-|[]]]]; reflexivity.
Defined.

(** ** Entity tags *)

Lemma ner_scan_tagged (t : string) (r : Z) (es : list Span) :
  (exists e, In e es /\ label_ e = t) ->
  CheckNERTagPresence t r es = Returns r
  /\ CheckNERTagAbsence t r es = Returns ABSTAIN.
Proof.
  induction es as [|e es IH]; intros (x & Hin & Hx); [destruct Hin|]; simpl.
  destruct (String.eqb_spec (label_ e) t) as [E|E]; [split; reflexivity|].
  apply IH; destruct Hin as [<-|Hin]; [contradiction | exists x; auto].
Qed.

Lemma ner_scan_untagged (t : string) (r : Z) (es : list Span) :
  ~ (exists e, In e es /\ label_ e = t) ->
  CheckNERTagPresence t r es = Returns ABSTAIN
  /\ CheckNERTagAbsence t r es = Returns r.
Proof.
  induction es as [|e es IH]; intros N; simpl; [split; reflexivity|].
  destruct (String.eqb_spec (label_ e) t) as [E|E].
  - exfalso; apply N; exists e; split; [left; reflexivity | exact E].
  - apply IH; intros (x & Hin & Hx); apply N; exists x; split;
      [right; exact Hin | exact Hx].
Qed.

(** X3. The entity-tag presence function returns the label when some
    entity of the document carries exactly the configured tag and
    [ABSTAIN] when none does; the absence function does the reverse. *)
Theorem ner_verdict_is_tag_occurrence
    (kwp kwa : kwargs) (presence absence : LabelingFunction)
    (NERTag : string) (ReturnLabel : Z) :
  NERTagPresence kwp = Returns presence ->
  NERTagAbsence kwa = Returns absence ->
  kwp kNERTag = Some NERTag -> kwa kNERTag = Some NERTag ->
  kwp kReturnLabel = Some ReturnLabel -> kwa kReturnLabel = Some ReturnLabel ->
  forall doc : Doc,
    ((exists e, In e (ents doc) /\ label_ e = NERTag) ->
     call presence doc = Returns ReturnLabel
     /\ call absence doc = Returns ABSTAIN)
    /\ (~ (exists e, In e (ents doc) /\ label_ e = NERTag) ->
        call presence doc = Returns ABSTAIN
        /\ call absence doc = Returns ReturnLabel).
Proof.
  intros Hp Ha Htp Hta Hrp Hra doc.
  apply NERTagPresence_inv in Hp as (np & tp & rp & _ & Htp' & Hrp' & ->).
  apply NERTagAbsence_inv in Ha as (na & ta & ra & _ & Hta' & Hra' & ->).
  assert (tp = NERTag) by congruence.
  assert (ta = NERTag) by congruence.
  assert (rp = ReturnLabel) by congruence.
  assert (ra = ReturnLabel) by congruence.
  subst; simpl; split; intros E.
  - exact (@ner_scan_tagged NERTag ReturnLabel (ents doc) E).
  - exact (@ner_scan_untagged NERTag ReturnLabel (ents doc) E).
Qed.

Lemma ner_verdict_is_tag_occurrence_witness :
  exists presence absence,
    NERTagPresence (ner_kwargs "LF_org" "ORG" 1) = Returns presence
    /\ NERTagAbsence (ner_kwargs "LF_org" "ORG" 1) = Returns absence
    /\ call presence (mkDoc "Jane" [mkSpan "Jane" "PERSON"]) = Returns ABSTAIN
    /\ call absence (mkDoc "Jane" [mkSpan "Jane" "PERSON"]) = Returns 1.
Proof.
  eexists; eexists.
  split; [reflexivity|]. split; [reflexivity|].
  apply (proj2
    (@ner_verdict_is_tag_occurrence
       (ner_kwargs "LF_org" "ORG" 1) (ner_kwargs "LF_org" "ORG" 1)
       _ _ "ORG" 1 eq_refl eq_refl eq_refl eq_refl eq_refl eq_refl
       (mkDoc "Jane" [mkSpan "Jane" "PERSON"]))).
  intros (e & [<-|[]] & E); discriminate E.
Defined.

(** X4. The verdict of the entity-tag functions depends on the document
    only through the set of tags of its entities: two documents whose
    entities carry the same tags, in whatever order and number and with
    whatever texts, get the same result. *)
Theorem ner_verdict_ignores_order_and_text
    (kwp kwa : kwargs) (presence absence : LabelingFunction) :
  NERTagPresence kwp = Returns presence ->
  NERTagAbsence kwa = Returns absence ->
  forall doc doc' : Doc,
    (forall t, In t (map label_ (ents doc)) <-> In t (map label_ (ents doc'))) ->
    call presence doc = call presence doc'
    /\ call absence doc = call absence doc'.
Proof.
  intros Hp Ha doc doc' Same.
  apply NERTagPresence_inv in Hp as (np & tp & rp & _ & _ & _ & ->).
  apply NERTagAbsence_inv in Ha as (na & ta & ra & _ & _ & _ & ->).
  simpl.
  assert (T : forall t d,
             (exists e, In e (ents d) /\ label_ e = t)
             <-> In t (map label_ (ents d))).
  { intros t d; rewrite in_map_iff; split; intros (e & A & B); exists e; auto. }
  assert (D : forall t, In t (map label_ (ents doc))
                        \/ ~ In t (map label_ (ents doc))).
  { intros t; destruct (in_dec string_dec t (map label_ (ents doc)));
      [left | right]; assumption. }
  split.
  - destruct (D tp) as [I|N].
    + rewrite (proj1 (@ner_scan_tagged tp rp (ents doc) (proj2 (T _ _) I))).
      rewrite (proj1 (@ner_scan_tagged tp rp (ents doc')
                        (proj2 (T _ _) (proj1 (Same _) I)))).
      reflexivity.
    + rewrite (proj1 (@ner_scan_untagged tp rp (ents doc)
                        (fun X => N (proj1 (T _ _) X)))).
      rewrite (proj1 (@ner_scan_untagged tp rp (ents doc')
                        (fun X => N (proj2 (Same _) (proj1 (T _ _) X))))).
      reflexivity.
  - destruct (D ta) as [I|N].
    + rewrite (proj2 (@ner_scan_tagged ta ra (ents doc) (proj2 (T _ _) I))).
      rewrite (proj2 (@ner_scan_tagged ta ra (ents doc')
                        (proj2 (T _ _) (proj1 (Same _) I)))).
      reflexivity.
    + rewrite (proj2 (@ner_scan_untagged ta ra (ents doc)
                        (fun X => N (proj1 (T _ _) X)))).
      rewrite (proj2 (@ner_scan_untagged ta ra (ents doc')
                        (fun X => N (proj2 (Same _) (proj1 (T _ _) X))))).
      reflexivity.
Qed.

Lemma ner_verdict_ignores_order_and_text_witness :
  exists presence absence,
    NERTagPresence (ner_kwargs "LF_org" "ORG" 1) = Returns presence
    /\ NERTagAbsence (ner_kwargs "LF_org" "ORG" 1) = Returns absence
    /\ call presence (mkDoc "Jane joined Acme"
                        [mkSpan "Jane" "PERSON"; mkSpan "Acme" "ORG"])
       = call presence (mkDoc "Globex sued Initech and Bob"
                          [mkSpan "Globex" "ORG"; mkSpan "Initech" "ORG";
                           mkSpan "Bob" "PERSON"]).
Proof.
  eexists; eexists.
  split; [reflexivity|]. split; [reflexivity|].
  apply (@ner_verdict_ignores_order_and_text
           (ner_kwargs "LF_org" "ORG" 1) (ner_kwargs "LF_org" "ORG" 1)
           _ _ eq_refl eq_refl).
  intros t; simpl; tauto.
Defined.

(** ** Keywords *)

Lemma chr_lower_idempotent (c : ascii) : chr_lower (chr_lower c) = chr_lower c.
Proof.
  destruct c as [[] [] [] [] [] [] [] []]; reflexivity.
Qed.

Lemma str_lower_idempotent (s : string) : str_lower (str_lower s) = str_lower s.
Proof.
  induction s as [|c s IH]; simpl;
    [reflexivity | rewrite chr_lower_idempotent, IH; reflexivity].
Qed.

Lemma str_lower_app (a b : string) :
  str_lower (a ++ b) = str_lower a ++ str_lower b.
Proof.
  induction a as [|c a IH]; simpl; [reflexivity | rewrite IH; reflexivity].
Qed.

Lemma str_lower_length (s : string) :
  String.length (str_lower s) = String.length s.
Proof.
  induction s as [|c s IH]; simpl; [reflexivity | rewrite IH; reflexivity].
Qed.

Lemma str_app_inj (a a' b b' : string) :
  String.length a = String.length a' ->
  a ++ b = a' ++ b' -> a = a' /\ b = b'.
Proof.
  revert a'; induction a as [|c a IH]; intros [|c' a'] L E; simpl in *;
    try discriminate.
  - split; [reflexivity | exact E].
  - injection L as L; injection E as -> E.
    destruct (IH a' L E) as [-> ->]; split; reflexivity.
Qed.

(** A keyword that occurs in a lowercased text is itself in lower case. *)
Lemma bounded_occurrence_lowercase (k t : string) :
  bounded_occurrence k (str_lower t) -> str_lower k = k.
Proof.
  intros (b & a & c1 & c2 & E & _).
  pose proof (str_lower_idempotent t) as I.
  rewrite E in I.
  rewrite str_lower_app in I; simpl in I; rewrite str_lower_app in I.
  apply str_app_inj in I as [_ I]; [|apply str_lower_length].
  injection I as _ I.
  apply str_app_inj in I as [I _]; [exact I | apply str_lower_length].
Qed.

Lemma bounded_occurrence_length (k s : string) :
  bounded_occurrence k s ->
  (String.length k + 2 <= String.length s)%nat.
Proof.
  intros (b & a & c1 & c2 & -> & _).
  rewrite str_length_app; simpl; rewrite str_length_app; simpl; lia.
Qed.

(** The absence scan on keywords without pattern characters. *)
Lemma keyword_absence_scan_plain (ks : list string) (r : Z) (d : Doc) :
  Forall (fun k => plain k = true) ks ->
  (CheckForKeywordAbsenceExactMatch PyRe.search ks r d = Returns ABSTAIN
   /\ exists k, In k ks /\ bounded_occurrence k (str_lower (text d)))
  \/ (CheckForKeywordAbsenceExactMatch PyRe.search ks r d = Returns r
      /\ ~ exists k, In k ks /\ bounded_occurrence k (str_lower (text d))).
Proof.
  induction 1 as [|k ks P _ IH].
  - right; split; [reflexivity | intros (k & [] & _)].
  - rewrite keyword_absence_cons.
    destruct (@KeywordPattern.search_keyword_pattern k (str_lower (text d)) P)
      as [[S B]|[S B]]; rewrite S.
    + left; split; [reflexivity | exists k; split; [left; reflexivity | exact B]].
    + destruct IH as [[E (k' & Hin & B')]|[E N]].
      * left; split; [exact E | exists k'; split; [right; exact Hin | exact B']].
      * right; split; [exact E|].
        intros (k' & [<-|Hin] & B'); [exact (B B') | apply N; exists k'; auto].
Qed.

(** X5. For keywords without pattern characters the absence function
    returns [ABSTAIN] when some keyword of the list occurs in the
    lowercased text between two characters outside [[a-z0-9]], and the
    label when none does. *)
Theorem keyword_absence_bounded_occurrence
    (kw : kwargs) (lf : LabelingFunction)
    (ListOfKeywords : list string) (ReturnLabel : Z) :
  KeywordAbsenceExactMatch PyRe.search kw = Returns lf ->
  kw kListOfKeywords = Some ListOfKeywords ->
  kw kReturnLabel = Some ReturnLabel ->
  Forall (fun k => plain k = true) ListOfKeywords ->
  forall doc : Doc,
    ((exists k, In k ListOfKeywords
                /\ bounded_occurrence k (str_lower (text doc))) ->
     call lf doc = Returns ABSTAIN)
    /\ (~ (exists k, In k ListOfKeywords
                     /\ bounded_occurrence k (str_lower (text doc))) ->
        call lf doc = Returns ReturnLabel).
Proof.
  intros H Hk Hr P doc.
  apply KeywordAbsenceExactMatch_inv in H as (n & ks & r & _ & Hk' & Hr' & ->).
  assert (ks = ListOfKeywords) by congruence.
  assert (r = ReturnLabel) by congruence.
  subst ks r; simpl.
  destruct (keyword_absence_scan_plain ReturnLabel doc P) as [[E B]|[E N]].
  - split; [intros _; exact E | intros N; contradiction].
  - split; [intros B; contradiction | intros _; exact E].
Qed.

Lemma keyword_absence_bounded_occurrence_witness :
  exists lf,
    KeywordAbsenceExactMatch PyRe.search
      (keyword_kwargs "LF_no_fraud" ["scam"; "fraud"] 0) = Returns lf
    /\ call lf (mkDoc "We detected FRAUD here" []) = Returns ABSTAIN.
Proof.
  eexists; split; [reflexivity|].
  assert (P : Forall (fun k => plain k = true) ["scam"; "fraud"])
    by (repeat constructor).
  apply (proj1
    (@keyword_absence_bounded_occurrence
       (keyword_kwargs "LF_no_fraud" ["scam"; "fraud"] 0) _
       ["scam"; "fraud"] 0 eq_refl eq_refl eq_refl P
       (mkDoc "We detected FRAUD here" []))).
  exists "fraud"; split; [right; left; reflexivity|].
  exists "we detected", "here", " "%char, " "%char.
  split; [reflexivity | split; reflexivity].
Defined.

(** X6. The text is lowercased and the keywords are not: a keyword without
    pattern characters that is not already in lower case is never found.
    With a list of such keywords the presence function abstains on every
    document and the absence function returns the label on every
    document. *)
Theorem keyword_not_in_lower_case_never_found
    (kwp kwa : kwargs) (presence absence : LabelingFunction)
    (ListOfKeywords : list string) (ReturnLabel : Z) :
  KeywordPresenceExactMatch PyRe.search kwp = Returns presence ->
  KeywordAbsenceExactMatch PyRe.search kwa = Returns absence ->
  kwp kListOfKeywords = Some ListOfKeywords ->
  kwa kListOfKeywords = Some ListOfKeywords ->
  kwa kReturnLabel = Some ReturnLabel ->
  Forall (fun k => plain k = true) ListOfKeywords ->
  (forall k, In k ListOfKeywords -> str_lower k <> k) ->
  forall doc : Doc,
    call presence doc = Returns ABSTAIN
    /\ call absence doc = Returns ReturnLabel.
Proof.
  intros Hp Ha Hkp Hka Hra P Up doc.
  apply KeywordPresenceExactMatch_inv in Hp as (np & kp & rp & _ & Hkp' & _ & ->).
  apply KeywordAbsenceExactMatch_inv in Ha as (na & ka & ra & _ & Hka' & Hra' & ->).
  assert (kp = ListOfKeywords) by congruence.
  assert (ka = ListOfKeywords) by congruence.
  assert (ra = ReturnLabel) by congruence.
  subst; simpl.
  assert (N : ~ exists k, In k ListOfKeywords
                          /\ bounded_occurrence k (str_lower (text doc))).
  { intros (k & Hin & B); apply (Up k Hin).
    exact (@bounded_occurrence_lowercase k (text doc) B). }
  split.
  - destruct (keyword_scan_plain rp doc P) as [[_ B]|[E _]];
      [contradiction | exact E].
  - destruct (keyword_absence_scan_plain ReturnLabel doc P) as [[_ B]|[E _]];
      [contradiction | exact E].
Qed.

Lemma keyword_not_in_lower_case_never_found_witness :
  exists presence absence,
    KeywordPresenceExactMatch PyRe.search (keyword_kwargs "LF_irs" ["IRS"] 5)
    = Returns presence
    /\ KeywordAbsenceExactMatch PyRe.search (keyword_kwargs "LF_irs" ["IRS"] 5)
       = Returns absence
    /\ call presence (mkDoc "call the IRS now" []) = Returns ABSTAIN
    /\ call absence (mkDoc "call the IRS now" []) = Returns 5.
Proof.
  eexists; eexists.
  split; [reflexivity|]. split; [reflexivity|].
  assert (P : Forall (fun k => plain k = true) ["IRS"])
    by (repeat constructor).
  apply (@keyword_not_in_lower_case_never_found
           (keyword_kwargs "LF_irs" ["IRS"] 5) (keyword_kwargs "LF_irs" ["IRS"] 5)
           _ _ ["IRS"] 5 eq_refl eq_refl eq_refl eq_refl eq_refl P).
  intros k [<-|[]]; discriminate.
Defined.

(** X7. Both boundary characters are mandatory, so a lowercased text with
    fewer than two characters more than a keyword cannot hold it: when
    the lowercased text is that short for every keyword of a list without
    pattern characters (the empty text, or a text that lowercases to just
    the keyword), the presence function abstains and the absence function
    returns the label. *)
Theorem keyword_short_text_never_found
    (kwp kwa : kwargs) (presence absence : LabelingFunction)
    (ListOfKeywords : list string) (ReturnLabel : Z) :
  KeywordPresenceExactMatch PyRe.search kwp = Returns presence ->
  KeywordAbsenceExactMatch PyRe.search kwa = Returns absence ->
  kwp kListOfKeywords = Some ListOfKeywords ->
  kwa kListOfKeywords = Some ListOfKeywords ->
  kwa kReturnLabel = Some ReturnLabel ->
  Forall (fun k => plain k = true) ListOfKeywords ->
  forall doc : Doc,
    (forall k, In k ListOfKeywords ->
               (String.length (str_lower (text doc))
                < String.length k + 2)%nat) ->
    call presence doc = Returns ABSTAIN
    /\ call absence doc = Returns ReturnLabel.
Proof.
  intros Hp Ha Hkp Hka Hra P doc Short.
  apply KeywordPresenceExactMatch_inv in Hp as (np & kp & rp & _ & Hkp' & _ & ->).
  apply KeywordAbsenceExactMatch_inv in Ha as (na & ka & ra & _ & Hka' & Hra' & ->).
  assert (kp = ListOfKeywords) by congruence.
  assert (ka = ListOfKeywords) by congruence.
  assert (ra = ReturnLabel) by congruence.
  subst; simpl.
  assert (N : ~ exists k, In k ListOfKeywords
                          /\ bounded_occurrence k (str_lower (text doc))).
  { intros (k & Hin & B).
    apply bounded_occurrence_length in B.
    specialize (Short k Hin); lia. }
  split.
  - destruct (keyword_scan_plain rp doc P) as [[_ B]|[E _]];
      [contradiction | exact E].
  - destruct (keyword_absence_scan_plain ReturnLabel doc P) as [[_ B]|[E _]];
      [contradiction | exact E].
Qed.

Lemma keyword_short_text_never_found_witness :
  exists presence absence,
    KeywordPresenceExactMatch PyRe.search (keyword_kwargs "LF_pie" ["pie"] 4)
    = Returns presence
    /\ KeywordAbsenceExactMatch PyRe.search (keyword_kwargs "LF_pie" ["pie"] 4)
       = Returns absence
    /\ call presence (mkDoc "pie!" []) = Returns ABSTAIN
    /\ call absence (mkDoc "pie!" []) = Returns 4.
Proof.
  eexists; eexists.
  split; [reflexivity|]. split; [reflexivity|].
  assert (P : Forall (fun k => plain k = true) ["pie"])
    by (repeat constructor).
  apply (@keyword_short_text_never_found
           (keyword_kwargs "LF_pie" ["pie"] 4) (keyword_kwargs "LF_pie" ["pie"] 4)
           _ _ ["pie"] 4 eq_refl eq_refl eq_refl eq_refl eq_refl P
           (mkDoc "pie!" [])).
  intros k [<-|[]]; simpl; lia.
Defined.

(** ** Keyword lists, whatever [re.search] answers *)

(** X8. Keyword lists compose: under a label other than [ABSTAIN], the
    presence scan of a concatenated list gives what the scan of the first
    part gives when that is the label or a failure, and otherwise what the
    scan of the second part gives; the absence scan gives [ABSTAIN] or the
    failure of the first part, and otherwise what the second part gives. *)
Theorem keyword_lists_compose
    (re_search : string -> string -> search_result)
    (ks more : list string) (ReturnLabel : Z) (doc : Doc) :
  ReturnLabel <> ABSTAIN ->
  CheckForKeywordExactMatch re_search (ks ++ more)%list ReturnLabel doc
  = match CheckForKeywordExactMatch re_search ks ReturnLabel doc with
    | Returns v =>
        if Z.eqb v ABSTAIN
        then CheckForKeywordExactMatch re_search more ReturnLabel doc
        else Returns v
    | Raises e => Raises e
    end
  /\ CheckForKeywordAbsenceExactMatch re_search (ks ++ more)%list ReturnLabel doc
     = match CheckForKeywordAbsenceExactMatch re_search ks ReturnLabel doc with
       | Returns v =>
           if Z.eqb v ABSTAIN
           then Returns ABSTAIN
           else CheckForKeywordAbsenceExactMatch re_search more ReturnLabel doc
       | Raises e => Raises e
       end.
Proof.
  intros NE.
  assert (F : Z.eqb ReturnLabel ABSTAIN = false) by (apply Z.eqb_neq; exact NE).
  induction ks as [|k ks [IHp IHa]].
  - simpl app; split.
    + reflexivity.
    + change (CheckForKeywordAbsenceExactMatch re_search [] ReturnLabel doc)
        with (@Returns Z ReturnLabel).
      cbv iota; rewrite F; reflexivity.
  - simpl app; rewrite !keyword_presence_cons, !keyword_absence_cons.
    destruct (re_search (keyword_pattern k) (str_lower (text doc))).
    + rewrite F; split; reflexivity.
    + split; [exact IHp | exact IHa].
    + split; reflexivity.
Qed.

Lemma keyword_lists_compose_witness :
  CheckForKeywordExactMatch PyRe.search (["scam"] ++ ["fraud"; "("])%list 2
    (mkDoc "we detected fraud here" [])
  = CheckForKeywordExactMatch PyRe.search ["fraud"; "("] 2
      (mkDoc "we detected fraud here" []).
Proof.
  assert (NE : 2 <> ABSTAIN) by discriminate.
  rewrite (proj1 (@keyword_lists_compose PyRe.search ["scam"] ["fraud"; "("] 2
                    (mkDoc "we detected fraud here" []) NE)).
  vm_compute; reflexivity.
Defined.

Lemma keyword_scan_answers
    (re_search : string -> string -> search_result)
    (ks : list string) (r : Z) (d : Doc) :
  (forall k e, In k ks ->
               re_search (keyword_pattern k) (str_lower (text d)) <> Failed e) ->
  (CheckForKeywordExactMatch re_search ks r d = Returns r
   /\ CheckForKeywordAbsenceExactMatch re_search ks r d = Returns ABSTAIN
   /\ exists k, In k ks
                /\ re_search (keyword_pattern k) (str_lower (text d)) = Found)
  \/ (CheckForKeywordExactMatch re_search ks r d = Returns ABSTAIN
      /\ CheckForKeywordAbsenceExactMatch re_search ks r d = Returns r
      /\ forall k, In k ks ->
                   re_search (keyword_pattern k) (str_lower (text d))
                   = NotFound).
Proof.
  induction ks as [|k ks IH]; intros NF.
  - right; split; [reflexivity|]; split; [reflexivity | intros k []].
  - rewrite keyword_presence_cons, keyword_absence_cons.
    destruct (re_search (keyword_pattern k) (str_lower (text d)))
      as [| |e] eqn:S.
    + left; split; [reflexivity|]; split; [reflexivity|].
      exists k; split; [left; reflexivity | exact S].
    + destruct IH as [(P & A & k' & Hin & F)|(P & A & N)].
      * intros k' e Hin; apply NF; right; exact Hin.
      * left; split; [exact P|]; split; [exact A|].
        exists k'; split; [right; exact Hin | exact F].
      * right; split; [exact P|]; split; [exact A|].
        intros k' [<-|Hin]; [exact S | apply N; exact Hin].
    + exfalso; apply (NF k e); [left; reflexivity | exact S].
Qed.

(** X9. Neither the order of the keywords nor their repetition matters as
    long as [re.search] answers on each of them: two keyword lists with
    the same elements give the same presence result and the same absence
    result on a document on which no pattern fails. *)
Theorem keyword_order_and_duplicates_immaterial
    (re_search : string -> string -> search_result)
    (ks ks' : list string) (ReturnLabel : Z) (doc : Doc) :
  (forall k, In k ks <-> In k ks') ->
  (forall k e, In k ks ->
               re_search (keyword_pattern k) (str_lower (text doc))
               <> Failed e) ->
  CheckForKeywordExactMatch re_search ks ReturnLabel doc
  = CheckForKeywordExactMatch re_search ks' ReturnLabel doc
  /\ CheckForKeywordAbsenceExactMatch re_search ks ReturnLabel doc
     = CheckForKeywordAbsenceExactMatch re_search ks' ReturnLabel doc.
Proof.
  intros Same NF.
  assert (NF' : forall k e, In k ks' ->
                  re_search (keyword_pattern k) (str_lower (text doc))
                  <> Failed e)
    by (intros k e Hin; apply NF, Same; exact Hin).
  destruct (keyword_scan_answers re_search ks ReturnLabel doc NF)
    as [(P & A & k & Hin & F)|(P & A & N)];
    destruct (keyword_scan_answers re_search ks' ReturnLabel doc NF')
      as [(P' & A' & k' & Hin' & F')|(P' & A' & N')];
    rewrite P, A, P', A'; try (split; reflexivity); exfalso.
  - apply Same in Hin; rewrite (N' k Hin) in F; discriminate F.
  - apply Same in Hin'; rewrite (N k' Hin') in F'; discriminate F'.
Qed.

Lemma keyword_order_and_duplicates_immaterial_witness :
  CheckForKeywordExactMatch PyRe.search ["scam"; "fraud"] 2
    (mkDoc "we detected fraud here" [])
  = CheckForKeywordExactMatch PyRe.search ["fraud"; "scam"; "fraud"] 2
      (mkDoc "we detected fraud here" []).
Proof.
  apply (@keyword_order_and_duplicates_immaterial PyRe.search
           ["scam"; "fraud"] ["fraud"; "scam"; "fraud"] 2
           (mkDoc "we detected fraud here" [])).
  - intros k; simpl; tauto.
  - intros k e [<-|[<-|[]]]; vm_compute; discriminate.
Defined.

(** ** Fuzzy match, further *)

Section FuzzyMatchMore.

Variable token_sort_ratio : string -> string -> Z.
Variable list_set : list string -> list string.

Lemma fuzzy_ents_untagged (ks : list string) (r th : Z) (t : string)
    (es : list Span) (l : locals) :
  ~ (exists e, In e es /\ label_ e = t) ->
  fuzzy_ents token_sort_ratio list_set ks r th t es l = Returns ABSTAIN.
Proof.
  revert l; induction es as [|e es IH]; intros l N; simpl; [reflexivity|].
  destruct (String.eqb_spec (label_ e) t) as [E|E].
  - exfalso; apply N; exists e; split; [left; reflexivity | exact E].
  - apply IH; intros (x & Hin & Hx); apply N; exists x; split;
      [right; exact Hin | exact Hx].
Qed.

Lemma fuzzy_ents_nonpositive (ks : list string) (r th : Z) (t : string)
    (es : list Span) (l : locals) :
  th <= 0 -> 0 <= max_ratio l ->
  (exists e, In e es /\ label_ e = t) ->
  fuzzy_ents token_sort_ratio list_set ks r th t es l = Returns r.
Proof.
  intros Hth; revert l; induction es as [|e es IH]; intros l Hl (x & Hin & Hx);
    [destruct Hin|]; simpl.
  destruct (String.eqb_spec (label_ e) t) as [E|E].
  - pose proof (fuzzy_names_increases token_sort_ratio (span_text e)
                  (list_set ks) l) as M.
    destruct (Z.geb_spec
                (max_ratio (fuzzy_names token_sort_ratio (span_text e)
                              (list_set ks) l)) th) as [_|B];
      [reflexivity | lia].
  - apply IH; [exact Hl|].
    destruct Hin as [<-|Hin]; [contradiction | exists x; auto].
Qed.

(** X10. A document without an entity of the target tag gets [ABSTAIN]
    from the fuzzy matcher whatever the gazetteer, the threshold and the
    scorer are; the empty entity list is the first such document. *)
Theorem fuzzy_abstains_without_tagged_entity
    (kw : kwargs) (lf : LabelingFunction) (NERTag : string) :
  NamedEntityFuzzyMatch token_sort_ratio list_set kw = Returns lf ->
  kw kNERTag = Some NERTag ->
  forall doc : Doc,
    ~ (exists e, In e (ents doc) /\ label_ e = NERTag) ->
    call lf doc = Returns ABSTAIN.
Proof.
  intros H Ht doc N.
  apply NamedEntityFuzzyMatch_inv in H
    as (n & ks & r & th & t & _ & _ & _ & _ & Ht' & ->); simpl.
  assert (t = NERTag) by congruence; subst t.
  apply fuzzy_ents_untagged; exact N.
Qed.

(** X11. With a threshold that is not positive the fuzzy matcher is the
    entity-tag presence function: it returns on every document what the
    function built by [NERTagPresence] for the same tag and label returns,
    whatever the gazetteer holds. *)
Theorem fuzzy_nonpositive_threshold_is_tag_presence
    (kwf kwp : kwargs) (fuzzy presence : LabelingFunction)
    (NERTag : string) (ReturnLabel FuzzyMatchThreshold : Z) :
  NamedEntityFuzzyMatch token_sort_ratio list_set kwf = Returns fuzzy ->
  NERTagPresence kwp = Returns presence ->
  kwf kNERTag = Some NERTag -> kwp kNERTag = Some NERTag ->
  kwf kReturnLabel = Some ReturnLabel -> kwp kReturnLabel = Some ReturnLabel ->
  kwf kFuzzyMatchThreshold = Some FuzzyMatchThreshold ->
  FuzzyMatchThreshold <= 0 ->
  forall doc : Doc, call fuzzy doc = call presence doc.
Proof.
  intros Hf Hp Htf Htp Hrf Hrp Hth Hle doc.
  apply NamedEntityFuzzyMatch_inv in Hf
    as (n & ks & r & th & t & _ & _ & Hrf' & Hth' & Htf' & ->).
  apply NERTagPresence_inv in Hp as (np & tp & rp & _ & Htp' & Hrp' & ->).
  assert (t = NERTag) by congruence.
  assert (tp = NERTag) by congruence.
  assert (r = ReturnLabel) by congruence.
  assert (rp = ReturnLabel) by congruence.
  assert (th = FuzzyMatchThreshold) by congruence.
  subst; simpl; unfold CheckForNamedEntityFuzzyMatch.
  destruct (in_dec string_dec NERTag (map label_ (ents doc))) as [I|N].
  - assert (E : exists e, In e (ents doc) /\ label_ e = NERTag).
    { apply in_map_iff in I as (e & A & B); exists e; auto. }
    rewrite (@fuzzy_ents_nonpositive ks ReturnLabel FuzzyMatchThreshold NERTag
               (ents doc) (mkLocals 0 None) Hle (Z.le_refl 0) E).
    rewrite (proj1 (@ner_scan_tagged NERTag ReturnLabel (ents doc) E)).
    reflexivity.
  - assert (E : ~ exists e, In e (ents doc) /\ label_ e = NERTag).
    { intros (e & A & B); apply N, in_map_iff; exists e; auto. }
    rewrite (@fuzzy_ents_untagged ks ReturnLabel FuzzyMatchThreshold NERTag
               (ents doc) (mkLocals 0 None) E).
    rewrite (proj1 (@ner_scan_untagged NERTag ReturnLabel (ents doc) E)).
    reflexivity.
Qed.

Lemma fuzzy_names_below (e : string) (names : list string) (l : locals)
    (th : Z) :
  (forall a b, token_sort_ratio a b < th) ->
  max_ratio l < th ->
  max_ratio (fuzzy_names token_sort_ratio e names l) < th.
Proof.
  intros B; revert l; induction names as [|n names IH]; intros l Hl; simpl;
    [exact Hl|].
  destruct (_ >? _); apply IH; [simpl; apply B | exact Hl].
Qed.

(** X12. A threshold the scorer cannot reach makes the fuzzy matcher
    abstain on every document: when the threshold is positive and above
    every score the scorer gives (101 for a scorer that stays within 0 to
    100), no entity ever qualifies. *)
Theorem fuzzy_unreachable_threshold_abstains
    (kw : kwargs) (lf : LabelingFunction) (FuzzyMatchThreshold : Z) :
  NamedEntityFuzzyMatch token_sort_ratio list_set kw = Returns lf ->
  kw kFuzzyMatchThreshold = Some FuzzyMatchThreshold ->
  0 < FuzzyMatchThreshold ->
  (forall a b, token_sort_ratio a b < FuzzyMatchThreshold) ->
  forall doc : Doc, call lf doc = Returns ABSTAIN.
Proof.
  intros H Hth Pos Below doc.
  apply NamedEntityFuzzyMatch_inv in H
    as (n & ks & r & th & t & _ & _ & _ & Hth' & _ & ->); simpl.
  assert (th = FuzzyMatchThreshold) by congruence; subst th.
  unfold CheckForNamedEntityFuzzyMatch.
  assert (G : forall es l,
             max_ratio l < FuzzyMatchThreshold ->
             fuzzy_ents token_sort_ratio list_set ks r FuzzyMatchThreshold t
               es l = Returns ABSTAIN).
  { induction es as [|e es IH]; intros l Hl; simpl; [reflexivity|].
    destruct (String.eqb (label_ e) t); [|apply IH; exact Hl].
    pose proof (@fuzzy_names_below (span_text e) (list_set ks) l
                  FuzzyMatchThreshold Below Hl) as B.
    destruct (Z.geb_spec
                (max_ratio (fuzzy_names token_sort_ratio (span_text e)
                              (list_set ks) l)) FuzzyMatchThreshold) as [A|_];
      [lia | apply IH; exact B]. }
  apply G; simpl; exact Pos.
Qed.

(** The inner loop leaves in [max_ratio] the greatest of the carried
    value and the scores of the names, and [closest_name] is only touched
    when the maximum rises, to a name that scores the new maximum. *)
Lemma fuzzy_names_fold (e : string) (names : list string) (l : locals) :
  max_ratio (fuzzy_names token_sort_ratio e names l)
  = fold_left Z.max
      (map (fun n => token_sort_ratio (str_lower e) (str_lower n)) names)
      (max_ratio l).
Proof.
  revert l; induction names as [|n names IH]; intros l; simpl; [reflexivity|].
  destruct (Z.gtb_spec (token_sort_ratio (str_lower e) (str_lower n))
              (max_ratio l)) as [G|G]; rewrite IH; simpl; f_equal; lia.
Qed.

(** X13. The inner loop over the gazetteer keeps a running maximum: after
    it [max_ratio] is the greatest of the value carried in and the scores
    of the names visited, and [closest_name] is either untouched, when no
    score exceeded the carried value, or a visited name whose score is the
    new [max_ratio]. *)
Theorem fuzzy_inner_loop_keeps_maximum
    (NamedEntityInDoc : string) (names : list string) (l : locals) :
  let l' := fuzzy_names token_sort_ratio NamedEntityInDoc names l in
  max_ratio l'
  = fold_left Z.max
      (map (fun n => token_sort_ratio (str_lower NamedEntityInDoc)
                       (str_lower n)) names)
      (max_ratio l)
  /\ ((max_ratio l' = max_ratio l /\ closest_name l' = closest_name l)
      \/ (max_ratio l < max_ratio l'
          /\ exists n, In n names /\ closest_name l' = Some n
                       /\ token_sort_ratio (str_lower NamedEntityInDoc)
                            (str_lower n) = max_ratio l')).
Proof.
  split; [apply fuzzy_names_fold|].
  revert l; induction names as [|n names IH]; intros l; simpl.
  - left; split; reflexivity.
  - destruct (Z.gtb_spec (token_sort_ratio (str_lower NamedEntityInDoc)
                            (str_lower n)) (max_ratio l)) as [G|G].
    + right.
      destruct (IH (mkLocals (token_sort_ratio (str_lower NamedEntityInDoc)
                                (str_lower n)) (Some n)))
        as [[M C]|(M & m & Hin & C & S)]; simpl in *.
      * split; [lia|]; exists n; split; [left; reflexivity|].
        split; [exact C | symmetry; exact M].
      * split; [lia|]; exists m; split; [right; exact Hin|].
        split; [exact C | exact S].
    + destruct (IH l) as [[M C]|(M & m & Hin & C & S)].
      * left; split; assumption.
      * right; split; [exact M|]; exists m; split; [right; exact Hin|].
        split; [exact C | exact S].
Qed.

Hypothesis list_set_elements :
  forall (l : list string) (x : string), In x (list_set l) <-> In x l.

Lemma fuzzy_reference_cases (ks : list string) (r th : Z) (t : string)
    (es : list Span) :
  0 < th ->
  (fuzzy_reference token_sort_ratio ks r th t es = Returns r
   /\ exists e n, In e es /\ label_ e = t /\ In n ks
                  /\ th <= token_sort_ratio (str_lower (span_text e))
                             (str_lower n))
  \/ (fuzzy_reference token_sort_ratio ks r th t es = Returns ABSTAIN
      /\ ~ exists e n, In e es /\ label_ e = t /\ In n ks
                       /\ th <= token_sort_ratio (str_lower (span_text e))
                                  (str_lower n)).
Proof.
  intros Pos; induction es as [|e es IH]; simpl.
  - right; split; [reflexivity | intros (e & n & [] & _)].
  - pose proof (entity_maximum_reaches token_sort_ratio ks e th) as Q.
    destruct (String.eqb_spec (label_ e) t) as [E|E]; simpl.
    + destruct (Z.leb_spec th (entity_maximum token_sort_ratio ks e)) as [B|B].
      * left; split; [reflexivity|].
        apply Q in B as [B|(n & Hin & Hn)]; [lia|].
        exists e, n; repeat split; auto.
      * destruct IH as [[R (x & n & Hin & Hx & Hn & S)]|[R N]].
        -- left; split; [exact R|]; exists x, n; repeat split; auto.
        -- right; split; [exact R|].
           intros (x & n & [<-|Hin] & Hx & Hn & S).
           ++ assert (th <= entity_maximum token_sort_ratio ks e)
                by (apply Q; right; exists n; auto).
              lia.
           ++ apply N; exists x, n; auto.
    + destruct IH as [[R (x & n & Hin & Hx & Hn & S)]|[R N]].
      * left; split; [exact R|]; exists x, n; repeat split; auto.
      * right; split; [exact R|].
        intros (x & n & [<-|Hin] & Hx & Hn & S); [contradiction|].
        apply N; exists x, n; auto.
Qed.

(** X14. Under a positive threshold the early exit does not change the
    verdict: the fuzzy matcher returns the label when some entity of the
    target tag and some gazetteer entry score at least the threshold
    against each other (both lowercased), and [ABSTAIN] when no such pair
    exists, in whatever order entities and entries come. *)
Theorem fuzzy_verdict_is_some_pair_reaching_threshold
    (kw : kwargs) (lf : LabelingFunction) (ListOfKeywords : list string)
    (ReturnLabel FuzzyMatchThreshold : Z) (NERTag : string) :
  NamedEntityFuzzyMatch token_sort_ratio list_set kw = Returns lf ->
  kw kListOfKeywords = Some ListOfKeywords ->
  kw kReturnLabel = Some ReturnLabel ->
  kw kFuzzyMatchThreshold = Some FuzzyMatchThreshold ->
  kw kNERTag = Some NERTag ->
  0 < FuzzyMatchThreshold ->
  forall doc : Doc,
    let some_pair :=
      exists e n, In e (ents doc) /\ label_ e = NERTag /\ In n ListOfKeywords
                  /\ FuzzyMatchThreshold
                     <= token_sort_ratio (str_lower (span_text e))
                          (str_lower n) in
    (some_pair -> call lf doc = Returns ReturnLabel)
    /\ (~ some_pair -> call lf doc = Returns ABSTAIN).
Proof.
  intros H Hk Hr Hth Ht Pos doc some_pair.
  apply NamedEntityFuzzyMatch_inv in H
    as (n & ks & r & th & t & _ & Hk' & Hr' & Hth' & Ht' & ->); simpl.
  assert (ks = ListOfKeywords) by congruence.
  assert (r = ReturnLabel) by congruence.
  assert (th = FuzzyMatchThreshold) by congruence.
  assert (t = NERTag) by congruence.
  subst; unfold CheckForNamedEntityFuzzyMatch.
  rewrite (@fuzzy_ents_refines token_sort_ratio list_set list_set_elements
             ListOfKeywords ReturnLabel FuzzyMatchThreshold NERTag
             (ents doc) (mkLocals 0 None) (or_introl eq_refl)).
  destruct (@fuzzy_reference_cases ListOfKeywords ReturnLabel
              FuzzyMatchThreshold NERTag (ents doc) Pos) as [[R S]|[R N]].
  - split; [intros _; exact R | intros N; contradiction].
  - split; [intros S; contradiction | intros _; exact R].
Qed.

Lemma fuzzy_reference_same_elements (ks ks' : list string) (r th : Z)
    (t : string) (es : list Span) :
  (forall n, In n ks <-> In n ks') ->
  fuzzy_reference token_sort_ratio ks r th t es
  = fuzzy_reference token_sort_ratio ks' r th t es.
Proof.
  intros Same; induction es as [|e es IH]; simpl; [reflexivity|].
  rewrite IH.
  assert (E : (th <=? entity_maximum token_sort_ratio ks e)%Z
              = (th <=? entity_maximum token_sort_ratio ks' e)%Z).
  { pose proof (entity_maximum_reaches token_sort_ratio ks e th) as Q.
    pose proof (entity_maximum_reaches token_sort_ratio ks' e th) as Q'.
    destruct (Z.leb_spec th (entity_maximum token_sort_ratio ks e)) as [A|A];
      destruct (Z.leb_spec th (entity_maximum token_sort_ratio ks' e))
        as [B|B]; try reflexivity; exfalso.
    - apply Q in A as [A|(n & Hin & Hn)].
      + assert (th <= entity_maximum token_sort_ratio ks' e)
          by (apply Q'; left; exact A); lia.
      + assert (th <= entity_maximum token_sort_ratio ks' e)
          by (apply Q'; right; exists n; split;
              [apply Same; exact Hin | exact Hn]); lia.
    - apply Q' in B as [B|(n & Hin & Hn)].
      + assert (th <= entity_maximum token_sort_ratio ks e)
          by (apply Q; left; exact B); lia.
      + assert (th <= entity_maximum token_sort_ratio ks e)
          by (apply Q; right; exists n; split;
              [apply Same; exact Hin | exact Hn]); lia. }
  rewrite E; reflexivity.
Qed.

(** X15. The gazetteer counts as a set: two gazetteers with the same
    entries, listed in whatever order and however often, give fuzzy
    matchers that return the same result on every document. *)
Theorem fuzzy_gazetteer_is_a_set
    (kw kw' : kwargs) (lf lf' : LabelingFunction)
    (ks ks' : list string) :
  NamedEntityFuzzyMatch token_sort_ratio list_set kw = Returns lf ->
  NamedEntityFuzzyMatch token_sort_ratio list_set kw' = Returns lf' ->
  kw kListOfKeywords = Some ks -> kw' kListOfKeywords = Some ks' ->
  (forall n, In n ks <-> In n ks') ->
  kw kReturnLabel = kw' kReturnLabel ->
  kw kFuzzyMatchThreshold = kw' kFuzzyMatchThreshold ->
  kw kNERTag = kw' kNERTag ->
  forall doc : Doc, call lf doc = call lf' doc.
Proof.
  intros H H' Hk Hk' Same Er Eth Et doc.
  apply NamedEntityFuzzyMatch_inv in H
    as (n & k1 & r & th & t & _ & Hk1 & Hr & Hth & Ht & ->).
  apply NamedEntityFuzzyMatch_inv in H'
    as (n' & k2 & r' & th' & t' & _ & Hk2 & Hr' & Hth' & Ht' & ->).
  assert (k1 = ks) by congruence.
  assert (k2 = ks') by congruence.
  assert (r' = r) by congruence.
  assert (th' = th) by congruence.
  assert (t' = t) by congruence.
  subst; simpl; unfold CheckForNamedEntityFuzzyMatch.
  rewrite !(@fuzzy_ents_refines token_sort_ratio list_set list_set_elements)
    by (left; reflexivity).
  apply fuzzy_reference_same_elements; exact Same.
Qed.

End FuzzyMatchMore.

Lemma fuzzy_abstains_without_tagged_entity_witness :
  exists lf,
    NamedEntityFuzzyMatch exact_ratio (nodup string_dec)
      (fuzzy_kwargs "LF_gaz" ["jane"] 1 0 "ORG") = Returns lf
    /\ call lf (mkDoc "Jane" [mkSpan "Jane" "PERSON"]) = Returns ABSTAIN.
Proof.
  eexists; split; [reflexivity|].
  apply (@fuzzy_abstains_without_tagged_entity exact_ratio (nodup string_dec)
           (fuzzy_kwargs "LF_gaz" ["jane"] 1 0 "ORG") _ "ORG"
           eq_refl eq_refl (mkDoc "Jane" [mkSpan "Jane" "PERSON"])).
  intros (e & [<-|[]] & E); discriminate E.
Defined.

Lemma fuzzy_nonpositive_threshold_is_tag_presence_witness :
  exists fuzzy presence,
    NamedEntityFuzzyMatch exact_ratio (nodup string_dec)
      (fuzzy_kwargs "LF_gaz" ["globex"] 1 0 "ORG") = Returns fuzzy
    /\ NERTagPresence (ner_kwargs "LF_org" "ORG" 1) = Returns presence
    /\ call fuzzy (mkDoc "Jane joined Acme Corp"
                     [mkSpan "Jane" "PERSON"; mkSpan "Acme Corp" "ORG"])
       = call presence (mkDoc "Jane joined Acme Corp"
                          [mkSpan "Jane" "PERSON"; mkSpan "Acme Corp" "ORG"]).
Proof.
  eexists; eexists.
  split; [reflexivity|]. split; [reflexivity|].
  apply (@fuzzy_nonpositive_threshold_is_tag_presence exact_ratio
           (nodup string_dec)
           (fuzzy_kwargs "LF_gaz" ["globex"] 1 0 "ORG")
           (ner_kwargs "LF_org" "ORG" 1) _ _ "ORG" 1 0
           eq_refl eq_refl eq_refl eq_refl eq_refl eq_refl eq_refl).
  lia.
Defined.

Lemma fuzzy_unreachable_threshold_abstains_witness :
  exists lf,
    NamedEntityFuzzyMatch exact_ratio (nodup string_dec)
      (fuzzy_kwargs "LF_gaz" ["acme corp"] 1 101 "ORG") = Returns lf
    /\ call lf (mkDoc "Acme Corp" [mkSpan "Acme Corp" "ORG"]) = Returns ABSTAIN.
Proof.
  eexists; split; [reflexivity|].
  apply (@fuzzy_unreachable_threshold_abstains exact_ratio (nodup string_dec)
           (fuzzy_kwargs "LF_gaz" ["acme corp"] 1 101 "ORG") _ 101
           eq_refl eq_refl).
  - lia.
  - intros a b; unfold exact_ratio; destruct (String.eqb a b); lia.
Defined.

Lemma fuzzy_verdict_is_some_pair_reaching_threshold_witness :
  exists lf,
    NamedEntityFuzzyMatch exact_ratio (nodup string_dec)
      (fuzzy_kwargs "LF_gaz" ["Globex"; "Acme Corp"] 1 90 "ORG") = Returns lf
    /\ call lf (mkDoc "Initech sued ACME CORP"
                  [mkSpan "Initech" "ORG"; mkSpan "ACME CORP" "ORG"])
       = Returns 1.
Proof.
  eexists; split; [reflexivity|].
  assert (Pos : 0 < 90) by lia.
  apply (proj1
    (@fuzzy_verdict_is_some_pair_reaching_threshold exact_ratio
       (nodup string_dec) (fun l x => nodup_In string_dec l x)
       (fuzzy_kwargs "LF_gaz" ["Globex"; "Acme Corp"] 1 90 "ORG") _
       ["Globex"; "Acme Corp"] 1 90 "ORG"
       eq_refl eq_refl eq_refl eq_refl eq_refl Pos
       (mkDoc "Initech sued ACME CORP"
          [mkSpan "Initech" "ORG"; mkSpan "ACME CORP" "ORG"]))).
  exists (mkSpan "ACME CORP" "ORG"), "Acme Corp".
  split; [right; left; reflexivity|].
  split; [reflexivity|].
  split; [right; left; reflexivity|].
  vm_compute; discriminate.
Defined.

Lemma fuzzy_gazetteer_is_a_set_witness :
  exists lf lf',
    NamedEntityFuzzyMatch exact_ratio (nodup string_dec)
      (fuzzy_kwargs "LF_gaz" ["Globex"; "Acme Corp"] 1 90 "ORG") = Returns lf
    /\ NamedEntityFuzzyMatch exact_ratio (nodup string_dec)
         (fuzzy_kwargs "LF_gaz" ["Acme Corp"; "Globex"; "Acme Corp"] 1 90 "ORG")
       = Returns lf'
    /\ call lf (mkDoc "Initech sued ACME CORP"
                  [mkSpan "Initech" "ORG"; mkSpan "ACME CORP" "ORG"])
       = call lf' (mkDoc "Initech sued ACME CORP"
                     [mkSpan "Initech" "ORG"; mkSpan "ACME CORP" "ORG"]).
Proof.
  eexists; eexists.
  split; [reflexivity|]. split; [reflexivity|].
  apply (@fuzzy_gazetteer_is_a_set exact_ratio (nodup string_dec)
           (fun l x => nodup_In string_dec l x)
           (fuzzy_kwargs "LF_gaz" ["Globex"; "Acme Corp"] 1 90 "ORG")
           (fuzzy_kwargs "LF_gaz" ["Acme Corp"; "Globex"; "Acme Corp"] 1 90 "ORG")
           _ _ ["Globex"; "Acme Corp"] ["Acme Corp"; "Globex"; "Acme Corp"]
           eq_refl eq_refl eq_refl eq_refl).
  - intros n; simpl; tauto.
  - reflexivity.
  - reflexivity.
  - reflexivity.
Defined.

(** ** Sentiment thresholds, further *)

Lemma float_le_lt_trans (a b c : float) :
  float_ge b a = true -> float_lt b c = true -> float_lt a c = true.
Proof.
  destruct a as [sa|sa| |sa ma ea], b as [sb|sb| |sb mb eb],
           c as [sc|sc| |sc mc ec]; float_cases.
Qed.

Lemma float_lt_le_trans (a b c : float) :
  float_lt a b = true -> float_ge c b = true -> float_lt a c = true.
Proof.
  destruct a as [sa|sa| |sa ma ea], b as [sb|sb| |sb mb eb],
           c as [sc|sc| |sc mc ec]; float_cases.
Qed.

Lemma float_lt_nan (a : float) :
  float_lt a S754_nan = false /\ float_lt S754_nan a = false.
Proof.
  destruct a; split; reflexivity.
Qed.

(** X16. Widening the thresholds never loses a label: when a second
    configuration has lower thresholds that are not above and upper
    thresholds that are not below those of the first, every document the
    first function labels (with a label other than [ABSTAIN]) is labelled
    by the second. *)
Theorem sentiment_wider_thresholds_keep_label
    (TextBlob : string -> Sentiment)
    (kw kw' : kwargs) (lf lf' : LabelingFunction)
    (sl su pl pu sl' su' pl' pu' : float) (ReturnLabel : Z) :
  SentimentChecker TextBlob kw = Returns lf ->
  SentimentChecker TextBlob kw' = Returns lf' ->
  kw kSubjectivityLower = Some sl -> kw kSubjectivityUpper = Some su ->
  kw kPolarityLower = Some pl -> kw kPolarityUpper = Some pu ->
  kw' kSubjectivityLower = Some sl' -> kw' kSubjectivityUpper = Some su' ->
  kw' kPolarityLower = Some pl' -> kw' kPolarityUpper = Some pu' ->
  kw kReturnLabel = Some ReturnLabel -> kw' kReturnLabel = Some ReturnLabel ->
  ReturnLabel <> ABSTAIN ->
  float_ge sl sl' = true -> float_ge su' su = true ->
  float_ge pl pl' = true -> float_ge pu' pu = true ->
  forall doc : Doc,
    call lf doc = Returns ReturnLabel -> call lf' doc = Returns ReturnLabel.
Proof.
  intros H H' Hsl Hsu Hpl Hpu Hsl' Hsu' Hpl' Hpu' Hr Hr' NE Wsl Wsu Wpl Wpu
         doc L.
  apply SentimentChecker_inv in H
    as (n & a1 & a2 & a3 & a4 & r & _ & E1 & E2 & E3 & E4 & Er & ->).
  apply SentimentChecker_inv in H'
    as (n' & b1 & b2 & b3 & b4 & r' & _ & F1 & F2 & F3 & F4 & Fr & ->).
  assert (a1 = sl) by congruence. assert (a2 = su) by congruence.
  assert (a3 = pl) by congruence. assert (a4 = pu) by congruence.
  assert (b1 = sl') by congruence. assert (b2 = su') by congruence.
  assert (b3 = pl') by congruence. assert (b4 = pu') by congruence.
  assert (r = ReturnLabel) by congruence.
  assert (r' = ReturnLabel) by congruence.
  subst; simpl in *.
  pose proof (sentiment_not_inside TextBlob _ _ _ _ _ L NE) as (A & B & C & D).
  apply sentiment_inside; repeat split.
  - exact (float_le_lt_trans _ _ _ Wpl A).
  - exact (float_lt_le_trans _ _ _ B Wpu).
  - exact (float_le_lt_trans _ _ _ Wsl C).
  - exact (float_lt_le_trans _ _ _ D Wsu).
Qed.

Lemma sentiment_wider_thresholds_keep_label_witness :
  exists lf lf',
    SentimentChecker neutral_scorer
      (sentiment_kwargs "LF_mild" (S754_infinity true) f_half
         (S754_infinity true) f_half 1) = Returns lf
    /\ SentimentChecker neutral_scorer
         (sentiment_kwargs "LF_wide" (S754_infinity true) f1
            (S754_infinity true) f1 1) = Returns lf'
    /\ call lf' (mkDoc "" []) = Returns 1.
Proof.
  eexists; eexists.
  split; [reflexivity|]. split; [reflexivity|].
  assert (NE : 1 <> ABSTAIN) by discriminate.
  exact (@sentiment_wider_thresholds_keep_label neutral_scorer
           (sentiment_kwargs "LF_mild" (S754_infinity true) f_half
              (S754_infinity true) f_half 1)
           (sentiment_kwargs "LF_wide" (S754_infinity true) f1
              (S754_infinity true) f1 1)
           _ _ (S754_infinity true) f_half (S754_infinity true) f_half
           (S754_infinity true) f1 (S754_infinity true) f1 1
           eq_refl eq_refl eq_refl eq_refl eq_refl eq_refl
           eq_refl eq_refl eq_refl eq_refl eq_refl eq_refl NE
           eq_refl eq_refl eq_refl eq_refl (mkDoc "" []) eq_refl).
Defined.

(** X17. A NaN never passes a comparison: when one of the four thresholds
    or one of the two scores of the document is NaN, the sentiment checker
    returns [ABSTAIN]. *)
Theorem sentiment_nan_abstains
    (TextBlob : string -> Sentiment)
    (kw : kwargs) (lf : LabelingFunction)
    (SubjectivityLower SubjectivityUpper PolarityLower PolarityUpper : float) :
  SentimentChecker TextBlob kw = Returns lf ->
  kw kSubjectivityLower = Some SubjectivityLower ->
  kw kSubjectivityUpper = Some SubjectivityUpper ->
  kw kPolarityLower = Some PolarityLower ->
  kw kPolarityUpper = Some PolarityUpper ->
  forall doc : Doc,
    SubjectivityLower = S754_nan \/ SubjectivityUpper = S754_nan
    \/ PolarityLower = S754_nan \/ PolarityUpper = S754_nan
    \/ polarity (TextBlob (text doc)) = S754_nan
    \/ subjectivity (TextBlob (text doc)) = S754_nan ->
    call lf doc = Returns ABSTAIN.
Proof.
  intros H Hsl Hsu Hpl Hpu doc N.
  apply SentimentChecker_inv in H
    as (n & a1 & a2 & a3 & a4 & r & _ & E1 & E2 & E3 & E4 & _ & ->).
  assert (a1 = SubjectivityLower) by congruence.
  assert (a2 = SubjectivityUpper) by congruence.
  assert (a3 = PolarityLower) by congruence.
  assert (a4 = PolarityUpper) by congruence.
  subst; simpl.
  apply sentiment_outside; intros (A & B & C & D).
  destruct N as [N|[N|[N|[N|[N|N]]]]]; rewrite N in *;
    repeat match goal with
           | X : float_lt _ S754_nan = true |- _ =>
               rewrite (proj1 (float_lt_nan _)) in X; discriminate X
           | X : float_lt S754_nan _ = true |- _ =>
               rewrite (proj2 (float_lt_nan _)) in X; discriminate X
           end.
Qed.

Lemma sentiment_nan_abstains_witness :
  exists lf,
    SentimentChecker neutral_scorer
      (sentiment_kwargs "LF_mild" (S754_infinity true) f1 S754_nan f1 1)
    = Returns lf
    /\ call lf (mkDoc "" []) = Returns ABSTAIN.
Proof.
  eexists; split; [reflexivity|].
  apply (@sentiment_nan_abstains neutral_scorer
           (sentiment_kwargs "LF_mild" (S754_infinity true) f1 S754_nan f1 1)
           _ (S754_infinity true) f1 S754_nan f1
           eq_refl eq_refl eq_refl eq_refl eq_refl (mkDoc "" [])).
  right; right; left; reflexivity.
Defined.
